(** * markdowntoword: the outline-to-mapping extractor

    A shallow embedding of [parseMarkdown], [processValue] and the map-building
    loop of [replaceMustacheTags] (src/markdowntoword.go and its sibling
    revisions), together with the part of Go's [strings], [unicode] and
    [unicode/utf8] packages those functions call.

    Go strings are modelled by the sequence of runes that [range] / the
    [utf8] decoder yields for them: a rune is a [Z] (Go's [int32]), an ill-formed
    byte shows up as [RuneError].  All patterns the program searches for
    ("###", "##", ":", " ", "_", "-", "+", "*", newline) are ASCII, and an
    ASCII byte never occurs inside a multi-byte encoding, so prefix tests,
    splitting and replacing commute with decoding. *)

From Stdlib Require Import ZArith Ascii String Btauto.
From stdpp Require Import base option list gmap.

Local Open Scope Z_scope.

(** ** Runes and Go string literals *)

Abbreviation rune := Z.
Abbreviation gostring := (list Z).

Definition RuneError : rune := 65533.
Definition MaxRune : rune := 1114111.
Definition RuneSelf : rune := 128.

(** utf8.ValidRune: in range and not a surrogate half. *)
Definition ValidRune (r : rune) : bool :=
  ((0 <=? r) && (r <? 55296)) || ((57343 <? r) && (r <=? MaxRune)).

(** What [utf8.AppendRune] / [Builder.WriteRune] leaves in the string. *)
Definition WriteRune (r : rune) : rune :=
  if ValidRune r then r else RuneError.

(** First byte of the UTF-8 encoding of a rune, the value of [s[0]] for a
    string that starts with that rune. *)
Definition leadByte (r : rune) : Z :=
  if r <? 128 then r
  else if r <? 2048 then Z.lor 192 (Z.shiftr r 6)
  else if r <? 65536 then Z.lor 224 (Z.shiftr r 12)
  else Z.lor 240 (Z.shiftr r 18).

Definition rune_of_ascii (a : ascii) : rune := Z.of_N (N_of_ascii a).

(** Reads a source literal: the two characters backslash-n stand for a
    newline, as in Go's interpreted string literals; every other
    character is taken as it is. *)
Fixpoint go (s : string) : gostring :=
  match s with
  | EmptyString => []
  | String "\" (String "n" s') => 10 :: go s'
  | String a s' => rune_of_ascii a :: go s'
  end.

(** The bullet glyph U+2022 that [processValue] writes. *)
Definition bullet : gostring := [8226].

(** ** package unicode *)

(** unicode.IsSpace: the Latin-1 switch followed by the White_Space table. *)
Definition IsSpace (r : rune) : bool :=
  if (0 <=? r) && (r <=? 255) then
    ((9 <=? r) && (r <=? 13)) || (r =? 32) || (r =? 133) || (r =? 160)
  else
    (r =? 5760) || ((8192 <=? r) && (r <=? 8202)) || (r =? 8232) || (r =? 8233)
    || (r =? 8239) || (r =? 8287) || (r =? 12288).

(** ** package strings *)

(** strings.HasPrefix: [len(s) >= len(prefix) && s[:len(prefix)] == prefix]. *)
Definition HasPrefix (s prefix : gostring) : bool :=
  bool_decide (length prefix ≤ length s)%nat
  && bool_decide (take (length prefix) s = prefix).

(** strings.TrimPrefix. *)
Definition TrimPrefix (s prefix : gostring) : gostring :=
  if HasPrefix s prefix then drop (length prefix) s else s.

(** strings.Index; [None] stands for Go's -1. *)
Fixpoint Index (s substr : gostring) : option nat :=
  if HasPrefix s substr then Some O
  else match s with
       | [] => None
       | _ :: s' => S <$> Index s' substr
       end.

(** strings.TrimLeftFunc / TrimRightFunc / TrimFunc. *)
Fixpoint TrimLeftFunc (s : gostring) (f : rune -> bool) : gostring :=
  match s with
  | [] => []
  | r :: s' => if f r then TrimLeftFunc s' f else s
  end.

Fixpoint TrimRightFunc (s : gostring) (f : rune -> bool) : gostring :=
  match s with
  | [] => []
  | r :: s' =>
      match TrimRightFunc s' f with
      | [] => if f r then [] else [r]
      | t => r :: t
      end
  end.

Definition TrimFunc (s : gostring) (f : rune -> bool) : gostring :=
  TrimRightFunc (TrimLeftFunc s f) f.

(** strings.TrimSpace. *)
Definition TrimSpace (s : gostring) : gostring := TrimFunc s IsSpace.

(** strings.Map: a negative result drops the rune, any other result is
    written with [WriteRune]. *)
Fixpoint Map (mapping : rune -> rune) (s : gostring) : gostring :=
  match s with
  | [] => []
  | c :: s' =>
      let r := mapping c in
      if 0 <=? r then WriteRune r :: Map mapping s' else Map mapping s'
  end.

(** The counting loop of strings.Count for a non-empty [substr]; the fuel is
    the number of runes still to be looked at. *)
Fixpoint countLoop (fuel : nat) (s substr : gostring) : nat :=
  match fuel with
  | O => O
  | S fuel' =>
      match Index s substr with
      | None => O
      | Some i => S (countLoop fuel' (drop (i + length substr) s) substr)
      end
  end.

(** strings.Count: the number of non-overlapping instances; for the empty
    pattern the number of runes plus one. *)
Definition Count (s substr : gostring) : nat :=
  match substr with
  | [] => S (length s)
  | _ => countLoop (length s) s substr
  end.

(** strings.explode, the empty-separator case of [genSplit]. *)
Fixpoint explode (s : gostring) (n : nat) : list gostring :=
  match n, s with
  | O, _ => []
  | _, [] => []
  | S O, _ => [s]
  | S n', r :: s' => [r] :: explode s' n'
  end.

(** The loop of strings.genSplit (with [sepSave = 0]): at most [n] cuts. *)
Fixpoint splitLoop (n : nat) (s sep : gostring) : list gostring :=
  match n with
  | O => [s]
  | S n' =>
      match Index s sep with
      | None => [s]
      | Some m => take m s :: splitLoop n' (drop (m + length sep) s) sep
      end
  end.

(** strings.genSplit with [sepSave = 0].  The clamp of [n] to [len(s)+1]
    only sizes the result slice: every cut consumes a separator. *)
Definition genSplit (s sep : gostring) (n : Z) : list gostring :=
  if n =? 0 then []
  else match sep with
       | [] => explode s (if n <? 0 then length s else Z.to_nat n)
       | _ =>
           let n1 := if n <? 0 then S (Count s sep) else Z.to_nat n in
           let n2 := Nat.min n1 (S (length s)) in
           splitLoop (Nat.pred n2) s sep
       end.

Definition Split (s sep : gostring) : list gostring := genSplit s sep (-1).
Definition SplitN (s sep : gostring) (n : Z) : list gostring := genSplit s sep n.

(** strings.Join. *)
Fixpoint Join (elems : list gostring) (sep : gostring) : gostring :=
  match elems with
  | [] => []
  | [e] => e
  | e :: es => e ++ sep ++ Join es sep
  end.

(** The loop of strings.Replace for a non-empty [old]: [n] replacements. *)
Fixpoint replaceLoop (n : nat) (s old new : gostring) : gostring :=
  match n with
  | O => s
  | S n' =>
      match Index s old with
      | None => s
      | Some j => take j s ++ new ++ replaceLoop n' (drop (j + length old) s) old new
      end
  end.

(** The same loop for the empty [old], after its first round: [new] goes in
    after each of the next [n] runes. *)
Fixpoint replaceEmpty (n : nat) (s new : gostring) : gostring :=
  match n, s with
  | O, _ => s
  | _, [] => []
  | S n', r :: s' => r :: new ++ replaceEmpty n' s' new
  end.

(** strings.Replace. *)
Definition Replace (s old new : gostring) (n : Z) : gostring :=
  if bool_decide (old = new) || (n =? 0) then s
  else
    let m := Count s old in
    if (m =? 0)%nat then s
    else
      let n' := if (n <? 0) || (Z.of_nat m <? n) then m else Z.to_nat n in
      match old with
      | [] => match n' with O => s | S k => new ++ replaceEmpty k s new end
      | _ => replaceLoop n' s old new
      end.

Definition ReplaceAll (s old new : gostring) : gostring := Replace s old new (-1).

(** ** The program *)

Section Program.

(** [unicode.To(unicode.LowerCase, r)] for a rune above [MaxASCII]: the
    lookup in the [CaseRanges] table of package unicode, which is not part
    of this repository. *)
Variable To_LowerCase : rune -> rune.

(** unicode.ToLower. *)
Definition unicode_ToLower (r : rune) : rune :=
  if r <=? 127 then
    if (65 <=? r) && (r <=? 90) then r + 32 else r
  else To_LowerCase r.

Definition isASCII (r : rune) : bool := (0 <=? r) && (r <? RuneSelf).
Definition isUpperASCII (r : rune) : bool := (65 <=? r) && (r <=? 90).
Definition lowerASCII (r : rune) : rune := if isUpperASCII r then r + 32 else r.

(** strings.ToLower: the ASCII-only fast paths, else [Map(unicode.ToLower, s)]. *)
Definition ToLower (s : gostring) : gostring :=
  if forallb isASCII s then
    if existsb isUpperASCII s then map lowerASCII s else s
  else Map unicode_ToLower s.

(** The closure handed to [strings.Map] at lines 39-44, 67-72 and 88-93 of
    src/markdowntoword.go. *)
Definition keepRune (r : rune) : rune :=
  if (r =? 32) || (r =? 95) || ((97 <=? r) && (r <=? 122))
     || ((65 <=? r) && (r <=? 90)) || ((48 <=? r) && (r <=? 57)) || (r =? 45)
  then r else -1.

(** [strings.Map(keepRune, strings.ToLower(x))], the expression written
    out at those three places. *)
Definition inlineSanitize (x : gostring) : gostring := Map keepRune (ToLower x).

(** [sanitizeKey] of the revisions in src/unnamed/part_000 (lines 17-28).
    [cases.Fold().String] (golang.org/x/text) and [unicode.IsLetter],
    [unicode.IsNumber] are library code outside the repository. *)
Section SanitizeKey.
Variable Fold : gostring -> gostring.
Variables IsLetter IsNumber : rune -> bool.

Definition keepUnicode (r : rune) : rune :=
  if IsLetter r || IsNumber r || (r =? 32) || (r =? 95) || (r =? 45)
  then r else -1.

Definition sanitizeKey (s : gostring) : gostring :=
  let s := Fold s in
  Map keepUnicode s.
End SanitizeKey.

(** *** processValue *)

(** [item[0]]: indexing an empty string panics. *)
Definition byteAt0 (item : gostring) : option Z :=
  match item with
  | [] => None
  | r :: _ => Some (leadByte r)
  end.

(** The body of the loop of [processValue]. *)
Definition processItem (item : gostring) : option gostring :=
  if HasPrefix item (go "-") || HasPrefix item (go "+") then
    b ← byteAt0 item;
    Some (Replace item [b] bullet 1)
  else Some item.

Definition processValue (value : gostring) : option gostring :=
  let listItems := Split value (go "\n") in
  bulletPoints ← mapM processItem listItems;
  Some (Join bulletPoints (go "\n")).

(** *** parseMarkdown *)

Record ScanState := mkScan {
  data : gmap gostring gostring;
  currentPrefix : gostring;
  currentKey : gostring;
  currentValue : gostring;
  previousLine : gostring
}.

Definition initial : ScanState := mkScan ∅ [] [] [] [].

Inductive LineKind := EntryHeading | DefinitionEntry | SectionHeading | PlainText.

(** The chain of prefix tests of the loop body, in its order. *)
Definition classify (line : gostring) : LineKind :=
  if HasPrefix line (go "###") then EntryHeading
  else if HasPrefix line (go ":") then DefinitionEntry
  else if HasPrefix line (go "##") then SectionHeading
  else PlainText.

(** [if currentKey != "" { data[currentKey] = TrimSpace(processValue(currentValue)) }] *)
Definition flush (st : ScanState) : option (gmap gostring gostring) :=
  if bool_decide (currentKey st ≠ []) then
    v ← processValue (currentValue st);
    Some (<[currentKey st := TrimSpace v]> (data st))
  else Some (data st).

(** [if currentPrefix != "" { key = currentPrefix + "-" + key }] *)
Definition withPrefix (prefix key : gostring) : gostring :=
  if bool_decide (prefix ≠ []) then prefix ++ go "-" ++ key else key.

(** The kebab-casing of the three branches. *)
Definition kebabEntry (key : gostring) : gostring :=
  ToLower (ReplaceAll (ReplaceAll (TrimSpace key) (go " ") (go "-")) (go "_") (go "-")).

Definition kebabDefinition (key : gostring) : gostring :=
  ReplaceAll (ReplaceAll key (go " ") (go "-")) (go "_") (go "-").

Definition kebabSection (line : gostring) : gostring :=
  ToLower (ReplaceAll (ReplaceAll (TrimSpace (TrimPrefix line (go "##")))
                         (go " ") (go "-")) (go "_") (go "-")).

Section Scanner.
(** The sanitizer the loop calls: [inlineSanitize] in
    src/markdowntoword.go, [sanitizeKey] in the other revisions. *)
Variable sanitize : gostring -> gostring.

(** The local key of an Entry-Heading, before the prefix is put on. *)
Definition entryKey (heading : gostring) : gostring :=
  let key := sanitize heading in
  kebabEntry key.

(** One round of the loop over the lines; [None] is a run-time panic. *)
Definition step (st : ScanState) (line : gostring) : option ScanState :=
  let line := TrimSpace line in
  match classify line with
  | EntryHeading =>
      let heading := TrimPrefix line (go "###") in
      let key := entryKey heading in
      let key := withPrefix (currentPrefix st) key in
      data' ← flush st;
      Some (mkScan data' (currentPrefix st) key [] line)
  | DefinitionEntry =>
      let parts := SplitN line (go ":") 2 in
      if (length parts =? 2)%nat then
        let key := sanitize (previousLine st) in
        let key := kebabDefinition key in
        part1 ← parts !! 1%nat;
        let value := TrimSpace part1 in
        let key := withPrefix (currentPrefix st) key in
        Some (mkScan (<[key := value]> (data st)) (currentPrefix st)
                     (currentKey st) (currentValue st) line)
      else
        Some (mkScan (data st) (currentPrefix st) (currentKey st)
                     (currentValue st) line)
  | SectionHeading =>
      data' ← flush st;
      let currentPrefix := sanitize line in
      let currentPrefix := kebabSection line in
      Some (mkScan data' currentPrefix [] [] line)
  | PlainText =>
      if bool_decide (currentKey st ≠ []) then
        Some (mkScan (data st) (currentPrefix st) (currentKey st)
                     (currentValue st ++ line ++ go "\n") line)
      else
        Some (mkScan (data st) (currentPrefix st) (currentKey st)
                     (currentValue st) line)
  end.

(** The [for _, line := range lines] loop. *)
Fixpoint scanLines (st : ScanState) (lines : list gostring) : option ScanState :=
  match lines with
  | [] => Some st
  | line :: rest => st' ← step st line; scanLines st' rest
  end.

(** [parseMarkdown] from the file's content on: split, scan, final flush. *)
Definition parseMarkdown (markdown : gostring) : option (gmap gostring gostring) :=
  let lines := Split markdown (go "\n") in
  st ← scanLines initial lines;
  flush st.
End Scanner.

(** *** replaceMustacheTags: the mapping handed to [doc.ReplaceAll] *)

(** src/markdowntoword.go, lines 126-129: [replaceMap[key] = value]. *)
Definition replaceMap (data : gmap gostring gostring) : gmap gostring gostring :=
  (fun value => value) <$> data.

(** src/unnamed/part_000, lines 125-130:
    [cleanValue := ReplaceAll(ReplaceAll(value, "**", ""), "*", "")]. *)
Definition cleanValue (value : gostring) : gostring :=
  ReplaceAll (ReplaceAll value (go "**") (go "")) (go "*") (go "").

Definition replaceMapClean (data : gmap gostring gostring) : gmap gostring gostring :=
  cleanValue <$> data.

End Program.

(** ** Reference definitions the claims are compared with *)

(** Section 4.3 in words: a line that starts with "-" or "+" has only that
    first character replaced by the bullet glyph; other lines are kept. *)
Definition bulletLine (item : gostring) : gostring :=
  match item with
  | r :: rest => if (r =? 45) || (r =? 43) then bullet ++ rest else item
  | [] => []
  end.

(** Each space and each underscore becomes one hyphen. *)
Definition hyphenateEach (s : gostring) : gostring :=
  map (fun r => if (r =? 32) || (r =? 95) then 45 else r) s.

(** Each maximal run of spaces becomes one hyphen, each underscore one
    hyphen: the last step of the pipeline as section 4.2 words it. *)
Fixpoint hyphenateRuns (s : gostring) : gostring :=
  match s with
  | [] => []
  | r :: s' =>
      if r =? 32 then
        match s' with
        | 32 :: _ => hyphenateRuns s'
        | _ => 45 :: hyphenateRuns s'
        end
      else if r =? 95 then 45 :: hyphenateRuns s'
      else r :: hyphenateRuns s'
  end.

(** The character class of section 4.2 in its words: a letter, a digit, a
    space, an underscore or a hyphen, for a given reading of "letter" and
    "digit". *)
Definition inClass (isLetter isDigit : rune -> bool) (r : rune) : bool :=
  isLetter r || isDigit r || (r =? 32) || (r =? 95) || (r =? 45).

(** "Delete every character that is not" in that class: the others stay, in
    their order. *)
Definition deleteOthers (isLetter isDigit : rune -> bool) (s : gostring) : gostring :=
  filter (fun r => inClass isLetter isDigit r = true) s.

(** The four-step reference pipeline of section 4.2 in its words, for a
    given case folding and a given reading of "letter" and "digit": fold,
    delete, trim, turn each run of spaces and each underscore into a hyphen. *)
Definition referenceSanitize (caseFold : gostring -> gostring)
    (isLetter isDigit : rune -> bool) (s : gostring) : gostring :=
  hyphenateRuns (TrimSpace (deleteOthers isLetter isDigit (caseFold s))).

(** The letters and digits of the filter of src/markdowntoword.go. *)
Definition isAsciiLetter (r : rune) : bool :=
  ((97 <=? r) && (r <=? 122)) || ((65 <=? r) && (r <=? 90)).

Definition isAsciiDigit (r : rune) : bool := (48 <=? r) && (r <=? 57).

(** The same pipeline with the last step replacing rune by rune. *)
Definition pipelineSanitize (To_LowerCase : rune -> rune) (s : gostring) : gostring :=
  hyphenateEach (TrimSpace (Map keepRune (ToLower To_LowerCase s))).

(** The output condition of the sanitizer: lower-case ASCII letters, digits
    and hyphens only. *)
Definition isKeyRune (r : rune) : bool :=
  ((97 <=? r) && (r <=? 122)) || ((48 <=? r) && (r <=? 57)) || (r =? 45).

Definition isKey (key : gostring) : bool := forallb isKeyRune key.

(** A few rows of the [CaseRanges] table, enough to run the program on
    examples: Latin-1 capitals, dotted capital I and the Kelvin sign, which
    lower-cases to the ASCII letter k. *)
Definition sampleLowerCase (r : rune) : rune :=
  if ((192 <=? r) && (r <=? 214)) || ((216 <=? r) && (r <=? 222)) then r + 32
  else if r =? 304 then 105
  else if r =? 8490 then 107
  else r.

(** The runes the closure [keepRune] keeps. *)
Definition kept (r : rune) : Prop :=
  r = 32 \/ r = 95 \/ 97 <= r <= 122 \/ 65 <= r <= 90 \/ 48 <= r <= 57 \/ r = 45.

(** [processValue] without its panic: what it returns when it returns. *)
Definition processed (value : gostring) : gostring :=
  Join (map bulletLine (Split value (go "\n"))) (go "\n").

(** The mapping after the flush of a state. *)
Definition flushed (st : ScanState) : gmap gostring gostring :=
  if bool_decide (currentKey st ≠ []) then
    <[currentKey st := TrimSpace (processed (currentValue st))]> (data st)
  else data st.

(** The classification of a raw line has no marker. *)
Definition plainLine (line : gostring) : Prop :=
  classify (TrimSpace line) = PlainText.

(** Number of runes of [s] equal to [c], and [s] with every [c] replaced by
    the string [new]. *)
Definition occurrences (c : rune) (s : gostring) : nat :=
  length (filter (fun r => r = c) s).

Definition substRune (c : rune) (new s : gostring) : gostring :=
  s ≫= (fun r => if bool_decide (r = c) then new else [r]).

(** A key made of a prefix, when one is active, and a local key that meets
    the output condition. *)
Definition keyShape (prefix key : gostring) : Prop :=
  exists localKey, key = withPrefix prefix localKey /\ isKey localKey = true.

(** The Current Entry of a state is closed or has such a key. *)
Definition entryShape (st : ScanState) : Prop :=
  currentKey st = [] \/ keyShape (currentPrefix st) (currentKey st).

(** Text made of ASCII characters only. *)
Definition asciiOnly (s : gostring) : Prop := Forall (fun r => 0 <= r < 128) s.

(** Stand-ins for [cases.Fold().String], [unicode.IsLetter] and
    [unicode.IsNumber], for running [sanitizeKey] on examples: they are
    right on ASCII text and know the accented Latin-1 letters and the
    superscript digits besides.  The folding turns sharp s into "ss", the
    micro sign into the Greek mu and dotted capital I into "i" with a
    combining dot, as full case folding does. *)
Definition sampleFoldRune (r : rune) : gostring :=
  if r =? 223 then [115; 115]
  else if r =? 181 then [956]
  else if r =? 304 then [105; 775]
  else [unicode_ToLower sampleLowerCase r].

Definition sampleFold (s : gostring) : gostring := s ≫= sampleFoldRune.

Definition sampleIsLetter (r : rune) : bool :=
  ((97 <=? r) && (r <=? 122)) || ((65 <=? r) && (r <=? 90))
  || ((192 <=? r) && (r <=? 255) && negb (r =? 215) && negb (r =? 247)).

Definition sampleIsNumber (r : rune) : bool :=
  ((48 <=? r) && (r <=? 57)) || (r =? 178) || (r =? 179) || (r =? 185).

(** ** The rest of the program *)

(** strings.HasSuffix: [len(s) >= len(suffix) && s[len(s)-len(suffix):] == suffix]. *)
Definition HasSuffix (s suffix : gostring) : bool :=
  bool_decide (length suffix ≤ length s)%nat
  && bool_decide (drop (length s - length suffix) s = suffix).

(** strings.TrimSuffix. *)
Definition TrimSuffix (s suffix : gostring) : gostring :=
  if HasSuffix s suffix then take (length s - length suffix) s else s.

(** The loop of filepath.Ext, with "/" as the path separator: [i] positions
    are still to be visited, from the end of the path down. *)
Fixpoint extLoop (i : nat) (path : gostring) : gostring :=
  match i with
  | O => []
  | S i' =>
      match path !! i' with
      | Some c =>
          if c =? 47 then []
          else if c =? 46 then drop i' path
          else extLoop i' path
      | None => []
      end
  end.

(** filepath.Ext. *)
Definition Ext (path : gostring) : gostring := extLoop (length path) path.

(** The three string flags of [main] after [flag.Parse]. *)
Record Flags := mkFlags {
  markdownFile : gostring;
  templateFile : gostring;
  outputFile : gostring
}.

(** What [main] goes on to do: print a message and return, or call
    [parseMarkdown] on the first path and [replaceMustacheTags] on the
    template path, the mapping and the output path. *)
Inductive Outcome :=
| Complain (message : gostring)
| Convert (markdown template output : gostring).

(** The default of the output flag: the markdown path with [filepath.Ext]
    of it taken off by [strings.TrimSuffix], then ".docx". *)
Definition defaultOutput (markdown : gostring) : gostring :=
  TrimSuffix markdown (Ext markdown) ++ go ".docx".

(** [main] of src/markdowntoword.go (lines 154-177), from the parsed flags on. *)
Definition main (flags : Flags) : Outcome :=
  if bool_decide (markdownFile flags = []) then
    Complain (go "Error: Markdown file path is required")
  else if bool_decide (templateFile flags = []) then
    Complain (go "Error: Template file path is required")
  else
    let outputFile :=
      if bool_decide (outputFile flags = []) then defaultOutput (markdownFile flags)
      else outputFile flags in
    Convert (markdownFile flags) (templateFile flags) outputFile.

(** [docx.PlaceholderStyle] as the third revision of src/unnamed/part_000
    fills it in. *)
Record PlaceholderStyle := mkStyle {
  Text : gostring;
  Bold : bool;
  Italic : bool
}.

(** The first value that revision stores under a key (lines 527-531). *)
Definition styleParity (value : gostring) : PlaceholderStyle :=
  mkStyle value
    ((Count value (go "**") mod 2 =? 0)%nat)
    ((Count value (go "*") mod 2 =? 0)%nat).

(** The second value it stores under the same key (lines 533-537). *)
Definition styleOf (value : gostring) : PlaceholderStyle :=
  mkStyle (ReplaceAll (ReplaceAll value (go "**") (go "")) (go "*") (go ""))
    ((2 <=? Count value (go "**"))%nat)
    ((2 <=? Count value (go "*"))%nat && (Count value (go "**") =? 0)%nat).

(** The loop over [data] of that revision: two stores per key. *)
Definition replaceMapStyled (data : gmap gostring gostring)
    : gmap gostring PlaceholderStyle :=
  map_fold (fun key value replaceMap =>
              let replaceMap := <[key := styleParity value]> replaceMap in
              <[key := styleOf value]> replaceMap)
           ∅ data.

(** The loop of [replaceMarkdownFormatting] (src/unnamed/part_000, lines
    163-175): the part at index [i] is appended in either branch. *)
Fixpoint styledLoop (i : nat) (parts styledParts : list gostring) : list gostring :=
  match parts with
  | [] => styledParts
  | part :: parts' =>
      if (i mod 2 =? 1)%nat then styledLoop (S i) parts' (styledParts ++ [part])
      else styledLoop (S i) parts' (styledParts ++ [part])
  end.

Definition replaceMarkdownFormatting (value delimiter style : gostring) : gostring :=
  let parts := Split value delimiter in
  let styledParts := styledLoop 0 parts [] in
  Join styledParts (go "").

(** ** Notions used in the further properties *)

(** [s] without its runes [c]. *)
Definition deleteRune (c : rune) (s : gostring) : gostring :=
  filter (fun r => r ≠ c) s.

(** A value that [TrimSpace] leaves as it is. *)
Definition isTrimmed (v : gostring) : Prop := TrimSpace v = v.

(** A line that opens no bullet item. *)
Definition noMarker (item : gostring) : Prop :=
  HasPrefix item (go "-") = false /\ HasPrefix item (go "+") = false.

(** What a run of Plain-Text lines appends to the value of an open entry. *)
Definition accumulated (lines : list gostring) : gostring :=
  concat (map (fun line => TrimSpace line ++ go "\n") lines).

(** ** package strings: single-rune patterns *)

Lemma HasPrefix_nil_single c : HasPrefix [] [c] = false.
Proof. reflexivity. Qed.

Lemma HasPrefix_cons_single r s c : HasPrefix (r :: s) [c] = bool_decide (r = c).
Proof.
  unfold HasPrefix. cbn [length take].
  rewrite bool_decide_true by lia. cbn [andb].
  rewrite take_0. apply bool_decide_ext. split; congruence.
Qed.

Lemma Index_cons_single r s c :
  Index (r :: s) [c] = if bool_decide (r = c) then Some O else S <$> Index s [c].
Proof. cbn [Index]. by rewrite HasPrefix_cons_single. Qed.

Lemma Index_single_None c s : Index s [c] = None -> c ∉ s.
Proof.
  induction s as [|r s IH]; [intros _; apply not_elem_of_nil|].
  rewrite Index_cons_single. case_bool_decide as Hrc; [done|].
  destruct (Index s [c]) eqn:E; [done|]. intros _.
  apply not_elem_of_cons. split; [congruence | by apply IH].
Qed.

Lemma Index_single_Some c s i :
  Index s [c] = Some i ->
  s = take i s ++ c :: drop (i + 1) s /\ c ∉ take i s.
Proof.
  revert i. induction s as [|r s IH]; intros i; [done|].
  rewrite Index_cons_single. case_bool_decide as Hrc.
  - intros [= <-]. subst r. cbn. rewrite drop_0. split; [done | apply not_elem_of_nil].
  - destruct (Index s [c]) as [j|] eqn:E; [|done]. intros [= <-].
    destruct (IH j eq_refl) as [Hs Hpre]. cbn [take drop Nat.add app].
    split; [by rewrite <- Hs|].
    apply not_elem_of_cons. split; [congruence | done].
Qed.

Lemma occurrences_app c s t :
  occurrences c (s ++ t) = (occurrences c s + occurrences c t)%nat.
Proof. unfold occurrences. by rewrite filter_app, length_app. Qed.

Lemma occurrences_absent c s : c ∉ s -> occurrences c s = O.
Proof.
  unfold occurrences. induction s as [|r s IH]; [done|].
  intros [Hne Hs]%not_elem_of_cons.
  rewrite filter_cons_False by congruence. by apply IH.
Qed.

Lemma occurrences_hit c s : occurrences c (c :: s) = S (occurrences c s).
Proof. unfold occurrences. by rewrite filter_cons_True. Qed.

Lemma substRune_app c new s t :
  substRune c new (s ++ t) = substRune c new s ++ substRune c new t.
Proof. unfold substRune. apply bind_app. Qed.

Lemma substRune_absent c new s : c ∉ s -> substRune c new s = s.
Proof.
  unfold substRune. induction s as [|r s IH]; [done|].
  intros [Hne Hs]%not_elem_of_cons. cbn.
  rewrite bool_decide_false by congruence. cbn. f_equal. by apply IH.
Qed.

Lemma substRune_hit c new s : substRune c new (c :: s) = new ++ substRune c new s.
Proof. unfold substRune. cbn. by rewrite bool_decide_true. Qed.

Lemma occurrences_zero c s : occurrences c s = O -> c ∉ s.
Proof.
  unfold occurrences. induction s as [|r s IH]; [intros _; apply not_elem_of_nil|].
  destruct (decide (r = c)) as [->|Hne].
  - by rewrite filter_cons_True.
  - rewrite filter_cons_False by done. intros H%IH.
    apply not_elem_of_cons. split; [congruence | done].
Qed.

Lemma countLoop_single c fuel s :
  (length s <= fuel)%nat -> countLoop fuel s [c] = occurrences c s.
Proof.
  revert s. induction fuel as [|fuel IH]; intros s Hlen.
  - destruct s; [done | cbn in Hlen; lia].
  - cbn [countLoop]. destruct (Index s [c]) as [i|] eqn:E.
    + destruct (Index_single_Some _ _ _ E) as [Hs Hpre]. cbn [length].
      rewrite Hs at 2. rewrite occurrences_app, occurrences_hit,
        (occurrences_absent _ _ Hpre). cbn. f_equal. apply IH.
      apply (f_equal length) in Hs. rewrite length_app in Hs. cbn in Hs. lia.
    + symmetry. by apply occurrences_absent, Index_single_None.
Qed.

Lemma Count_single c s : Count s [c] = occurrences c s.
Proof. cbn. by apply countLoop_single. Qed.

Lemma replaceLoop_single c new n s :
  (occurrences c s <= n)%nat -> replaceLoop n s [c] new = substRune c new s.
Proof.
  revert s. induction n as [|n IH]; intros s Hocc.
  - cbn. symmetry. apply substRune_absent, occurrences_zero. lia.
  - cbn [replaceLoop]. destruct (Index s [c]) as [j|] eqn:E.
    + destruct (Index_single_Some _ _ _ E) as [Hs Hpre]. cbn [length].
      rewrite Hs at 3. rewrite substRune_app, substRune_hit,
        (substRune_absent _ _ _ Hpre). do 2 f_equal. apply IH.
      rewrite Hs, occurrences_app, occurrences_hit in Hocc. lia.
    + symmetry. by apply substRune_absent, Index_single_None.
Qed.

(** [ReplaceAll] with a one-rune pattern replaces every occurrence. *)
Lemma ReplaceAll_single c new s :
  [c] ≠ new -> ReplaceAll s [c] new = substRune c new s.
Proof.
  intros Hne. unfold ReplaceAll, Replace.
  rewrite bool_decide_false by done. cbn [orb Z.eqb].
  rewrite Count_single.
  destruct (Nat.eqb_spec (occurrences c s) 0) as [H0|H0].
  - symmetry. by apply substRune_absent, occurrences_zero.
  - cbn [Z.ltb Z.compare orb]. by apply replaceLoop_single.
Qed.

(** [Replace] with [n = 1] on a string that starts with the pattern rune
    rewrites that first rune only. *)
Lemma Replace_first c new rest :
  [c] ≠ new -> Replace (c :: rest) [c] new 1 = new ++ rest.
Proof.
  intros Hne. unfold Replace.
  rewrite bool_decide_false by done. cbn [orb Z.eqb].
  rewrite Count_single, occurrences_hit. cbn [Nat.eqb].
  replace ((1 <? 0) || (Z.of_nat (S (occurrences c rest)) <? 1)) with false.
  2:{ symmetry. apply orb_false_intro; [done|]. apply Z.ltb_ge. lia. }
  change (Z.to_nat 1) with 1%nat. cbn [replaceLoop].
  rewrite Index_cons_single, bool_decide_true by done.
  cbn. by rewrite drop_0.
Qed.

(** ** Trimming and mapping *)

Lemma TrimLeftFunc_Forall (P : Z -> Prop) f s : Forall P s -> Forall P (TrimLeftFunc s f).
Proof.
  induction 1 as [|r s Hr Hs IH]; cbn; [constructor|].
  destruct (f r); [done | by constructor].
Qed.

Lemma TrimRightFunc_Forall (P : Z -> Prop) f s : Forall P s -> Forall P (TrimRightFunc s f).
Proof.
  induction 1 as [|r s Hr Hs IH]; cbn; [constructor|].
  destruct (TrimRightFunc s f) as [|t ts].
  - destruct (f r); repeat constructor; done.
  - by constructor.
Qed.

Lemma TrimSpace_Forall (P : Z -> Prop) s : Forall P s -> Forall P (TrimSpace s).
Proof. intros H. by apply TrimRightFunc_Forall, TrimLeftFunc_Forall. Qed.

Lemma TrimLeftFunc_id f s : Forall (fun r => f r = false) s -> TrimLeftFunc s f = s.
Proof. destruct 1 as [|r s Hr Hs]; cbn; [done|]. by rewrite Hr. Qed.

Lemma TrimRightFunc_id f s : Forall (fun r => f r = false) s -> TrimRightFunc s f = s.
Proof.
  induction 1 as [|r s Hr Hs IH]; cbn; [done|].
  rewrite IH, Hr. by destruct s.
Qed.

(** A string without White_Space runes is left alone by [TrimSpace]. *)
Lemma TrimSpace_id s : Forall (fun r => IsSpace r = false) s -> TrimSpace s = s.
Proof.
  intros H. unfold TrimSpace, TrimFunc.
  rewrite (TrimLeftFunc_id _ _ H). by apply TrimRightFunc_id.
Qed.

Lemma TrimSpace_nil : TrimSpace [] = [].
Proof. reflexivity. Qed.

Lemma Map_app f s t : Map f (s ++ t) = Map f s ++ Map f t.
Proof.
  induction s as [|c s IH]; cbn; [done|].
  destruct (0 <=? f c); cbn; by rewrite IH.
Qed.

Lemma Map_id f s :
  Forall (fun c => f c = c /\ ValidRune c = true) s -> Map f s = s.
Proof.
  induction 1 as [|c s [Hc Hv] Hs IH]; cbn; [done|].
  rewrite Hc. unfold WriteRune. rewrite Hv, IH.
  unfold ValidRune in Hv. destruct (Z.leb_spec 0 c); [done|].
  exfalso. apply orb_prop in Hv as [Hv|Hv]; apply andb_prop in Hv as [H1 H2];
    unfold MaxRune in *; lia.
Qed.

(** ** The character classes of the sanitizer *)

Section Classes.
Variable To_LowerCase : rune -> rune.

Lemma keepRune_cases r : (kept r /\ keepRune r = r) \/ (~ kept r /\ keepRune r = -1).
Proof. unfold keepRune, kept. case_match; [left | right]; (split; [lia | done]). Qed.

Lemma kept_valid r : kept r -> WriteRune r = r.
Proof.
  intros H. unfold WriteRune, ValidRune, MaxRune.
  replace ((0 <=? r) && (r <? 55296)) with true; [done|].
  symmetry. apply andb_true_intro. unfold kept in H. split; lia.
Qed.

Lemma Map_keepRune_kept s : Forall kept (Map keepRune s).
Proof.
  induction s as [|c s IH]; cbn; [constructor|].
  destruct (keepRune_cases c) as [[Hk ->]|[Hk ->]].
  - replace (0 <=? c) with true by (symmetry; unfold kept in Hk; lia).
    rewrite kept_valid by done. by constructor.
  - done.
Qed.

Lemma Map_keepRune_cons_dropped c s :
  ~ kept c -> Map keepRune (c :: s) = Map keepRune s.
Proof. intros H. cbn. by destruct (keepRune_cases c) as [[? _]|[_ ->]]. Qed.

(** [strings.ToLower] is [strings.Map(unicode.ToLower, s)] on either path. *)
Lemma ToLower_Map s : ToLower To_LowerCase s = Map (unicode_ToLower To_LowerCase) s.
Proof.
  unfold ToLower. destruct (forallb isASCII s) eqn:Hascii; [|done].
  assert (Hmap : Map (unicode_ToLower To_LowerCase) s = map lowerASCII s).
  { induction s as [|c s IH]; [done|]. cbn in Hascii.
    apply andb_prop in Hascii as [Hc Hs]. cbn [Map map]. rewrite (IH Hs).
    unfold isASCII, RuneSelf in Hc.
    assert (unicode_ToLower To_LowerCase c = lowerASCII c) as ->.
    { unfold unicode_ToLower, lowerASCII, isUpperASCII.
      replace (c <=? 127) with true by lia. done. }
    assert (0 <= lowerASCII c < 160) by (unfold lowerASCII, isUpperASCII; case_match; lia).
    replace (0 <=? lowerASCII c) with true by lia.
    unfold WriteRune, ValidRune. replace (0 <=? lowerASCII c) with true by lia.
    by replace (lowerASCII c <? 55296) with true by lia. }
  rewrite Hmap. destruct (existsb isUpperASCII s) eqn:Hup; [done|].
  clear Hmap Hascii. induction s as [|c s IH]; [done|].
  cbn in Hup. apply orb_false_elim in Hup as [Hc Hs].
  cbn. rewrite <- (IH Hs). unfold lowerASCII. by rewrite Hc.
Qed.

Lemma inlineSanitize_kept x : Forall kept (inlineSanitize To_LowerCase x).
Proof. apply Map_keepRune_kept. Qed.

(** A rune that the closure drops and that lower-casing leaves alone (the
    heading marker, punctuation) vanishes from the sanitized text. *)
Lemma inlineSanitize_cons_dropped c x :
  0 <= c <= 127 -> ~ kept c -> ~ 65 <= c <= 90 ->
  inlineSanitize To_LowerCase (c :: x) = inlineSanitize To_LowerCase x.
Proof.
  intros Hc Hk Hup. unfold inlineSanitize. rewrite !ToLower_Map. cbn [Map].
  assert (unicode_ToLower To_LowerCase c = c) as ->.
  { unfold unicode_ToLower. replace (c <=? 127) with true by lia.
    case_match; [lia | done]. }
  replace (0 <=? c) with true by lia.
  assert (WriteRune c = c) as ->.
  { unfold WriteRune, ValidRune. replace (0 <=? c) with true by lia.
    by replace (c <? 55296) with true by lia. }
  by apply Map_keepRune_cons_dropped.
Qed.
End Classes.

(** ** processValue *)

Lemma processItem_bulletLine item : processItem item = Some (bulletLine item).
Proof.
  unfold processItem. change (go "-") with [45]. change (go "+") with [43].
  destruct item as [|r rest]; [done|].
  rewrite !HasPrefix_cons_single. cbn [bulletLine byteAt0].
  destruct (decide (r = 45)) as [->|H45].
  { cbn. by rewrite Replace_first. }
  destruct (decide (r = 43)) as [->|H43].
  { cbn. by rewrite Replace_first. }
  rewrite !bool_decide_false by done.
  replace (r =? 45) with false by lia. by replace (r =? 43) with false by lia.
Qed.

Lemma mapM_processItem items : mapM processItem items = Some (map bulletLine items).
Proof.
  induction items as [|item items IH]; [done|].
  cbn. rewrite processItem_bulletLine. cbn. by rewrite IH.
Qed.

Lemma processValue_processed value : processValue value = Some (processed value).
Proof. unfold processValue. by rewrite mapM_processItem. Qed.

Lemma flush_flushed st : flush st = Some (flushed st).
Proof.
  unfold flush, flushed. case_bool_decide; [|done].
  by rewrite processValue_processed.
Qed.

(** ** The loop body, branch by branch *)

Lemma HasPrefix_app p s : HasPrefix (p ++ s) p = true.
Proof.
  unfold HasPrefix. rewrite length_app, take_app_length.
  rewrite bool_decide_true by lia. by rewrite bool_decide_true.
Qed.

Lemma TrimPrefix_app p s : TrimPrefix (p ++ s) p = s.
Proof. unfold TrimPrefix. by rewrite HasPrefix_app, drop_app_length. Qed.

Lemma HasPrefix_inv s p : HasPrefix s p = true -> s = p ++ drop (length p) s.
Proof.
  unfold HasPrefix. intros [_ H%bool_decide_eq_true]%andb_prop.
  rewrite <- (take_drop (length p) s) at 1. by rewrite H.
Qed.

(** A string with the colon marker in front always splits in two. *)
Lemma SplitN_colon rest : SplitN (58 :: rest) (go ":") 2 = [[]; rest].
Proof.
  unfold SplitN, genSplit. change (go ":") with [58]. cbn [Z.eqb Z.ltb Z.compare].
  change (Z.to_nat 2) with 2%nat. cbn [length Nat.min Nat.pred splitLoop].
  rewrite Index_cons_single, bool_decide_true by done. cbn. by rewrite drop_0.
Qed.

Lemma classify_colon rest : classify (58 :: rest) = DefinitionEntry.
Proof.
  unfold classify. change (go ":") with [58]. rewrite HasPrefix_cons_single.
  rewrite bool_decide_true by done.
  replace (HasPrefix (58 :: rest) (go "###")) with false; [done|].
  change (go "###") with [35; 35; 35].
  unfold HasPrefix. symmetry. apply andb_false_intro2, bool_decide_eq_false.
  cbn. intros [=].
Qed.

Section Steps.
Variable To_LowerCase : rune -> rune.
Variable sanitize : gostring -> gostring.

Local Abbreviation step := (step To_LowerCase sanitize).
Local Abbreviation entryKey := (entryKey To_LowerCase sanitize).
Local Abbreviation parseMarkdown := (parseMarkdown To_LowerCase sanitize).

Lemma step_entry st line :
  classify (TrimSpace line) = EntryHeading ->
  step st line =
    Some (mkScan (flushed st) (currentPrefix st)
            (withPrefix (currentPrefix st)
               (entryKey (TrimPrefix (TrimSpace line) (go "###"))))
            [] (TrimSpace line)).
Proof. intros H. unfold step. rewrite H. cbn zeta. by rewrite flush_flushed. Qed.

Lemma step_definition st line rest :
  TrimSpace line = 58 :: rest ->
  step st line =
    Some (mkScan (<[withPrefix (currentPrefix st)
                      (kebabDefinition (sanitize (previousLine st)))
                    := TrimSpace rest]> (data st))
            (currentPrefix st) (currentKey st) (currentValue st) (58 :: rest)).
Proof.
  intros H. unfold step. rewrite H, classify_colon. cbn zeta.
  by rewrite SplitN_colon.
Qed.

Lemma step_section st line :
  classify (TrimSpace line) = SectionHeading ->
  step st line =
    Some (mkScan (flushed st) (kebabSection To_LowerCase (TrimSpace line)) [] []
            (TrimSpace line)).
Proof. intros H. unfold step. rewrite H. cbn zeta. by rewrite flush_flushed. Qed.

Lemma step_plain st line :
  classify (TrimSpace line) = PlainText ->
  step st line =
    Some (mkScan (data st) (currentPrefix st) (currentKey st)
            (if bool_decide (currentKey st ≠ [])
             then currentValue st ++ TrimSpace line ++ go "\n"
             else currentValue st)
            (TrimSpace line)).
Proof. intros H. unfold step. rewrite H. cbn zeta. by case_bool_decide. Qed.

Lemma classify_cases line :
  classify line = EntryHeading \/ (exists rest, line = 58 :: rest)
  \/ classify line = SectionHeading \/ classify line = PlainText.
Proof.
  unfold classify. destruct (HasPrefix line (go "###")); [by left|].
  destruct (HasPrefix line (go ":")) eqn:Hc.
  - right; left. apply HasPrefix_inv in Hc.
    exists (drop (length (go ":")) line). exact Hc.
  - destruct (HasPrefix line (go "##")); auto.
Qed.

(** No round of the loop panics. *)
Lemma step_total st line : exists st', step st line = Some st'.
Proof.
  destruct (classify_cases (TrimSpace line)) as [H|[[rest H]|[H|H]]].
  - rewrite step_entry by done. by eexists.
  - rewrite (step_definition _ _ _ H). by eexists.
  - rewrite step_section by done. by eexists.
  - rewrite step_plain by done. by eexists.
Qed.

Lemma scanLines_total lines : forall st, exists st', scanLines To_LowerCase sanitize st lines = Some st'.
Proof.
  induction lines as [|line lines IH]; intros st; cbn; [by eexists|].
  destruct (step_total st line) as [st' ->]. cbn. apply IH.
Qed.

Lemma parseMarkdown_total markdown : exists m, parseMarkdown markdown = Some m.
Proof.
  unfold parseMarkdown.
  destruct (scanLines_total (Split markdown (go "\n")) initial) as [st ->].
  cbn. rewrite flush_flushed. by eexists.
Qed.

(** Plain text with no entry open leaves everything but [previousLine]. *)
Lemma scanLines_plain lines : forall st,
  Forall plainLine lines -> currentKey st = [] ->
  exists st', scanLines To_LowerCase sanitize st lines = Some st'
              /\ data st' = data st /\ currentKey st' = [].
Proof.
  induction lines as [|line lines IH]; intros st Hplain Hkey; [by exists st|].
  apply Forall_cons in Hplain as [Hline Hlines].
  cbn [scanLines]. rewrite step_plain by done.
  destruct (IH (mkScan (data st) (currentPrefix st) (currentKey st)
                  (if bool_decide (currentKey st ≠ [])
                   then currentValue st ++ TrimSpace line ++ go "\n"
                   else currentValue st) (TrimSpace line)) Hlines Hkey)
    as (st' & Hscan & Hd & Hk).
  exists st'. split; [exact Hscan | by split].
Qed.

Lemma parseMarkdown_plain markdown :
  Forall plainLine (Split markdown (go "\n")) -> parseMarkdown markdown = Some ∅.
Proof.
  intros H. unfold parseMarkdown.
  destruct (scanLines_plain _ initial H eq_refl) as (st & -> & Hd & Hk).
  cbn. rewrite flush_flushed. unfold flushed. rewrite Hk.
  rewrite bool_decide_false by (intros ?; done). by rewrite Hd.
Qed.
End Steps.

(** ** The claims *)

(** C9.  [processValue] splits the value on newlines, rewrites only the
    first character of each line that starts with "-" or "+" into the bullet
    glyph and keeps every other line as it is, joining the lines again with
    newlines; it never panics on [item[0]].  The value made of the lines
    "- first" and "+ second", each ended by a newline, comes out with a
    bullet in place of both markers. *)
Theorem processValue_bullets :
  (forall value,
     processValue value
     = Some (Join (map bulletLine (Split value (go "\n"))) (go "\n")))
  /\ (forall rest, bulletLine (go "-" ++ rest) = bullet ++ rest)
  /\ (forall rest, bulletLine (go "+" ++ rest) = bullet ++ rest)
  /\ (forall r rest,
        bulletLine (r :: rest)
        = if bool_decide (r = 45 \/ r = 43) then bullet ++ rest else r :: rest)
  /\ bulletLine (go "") = go ""
  /\ processValue (go "- first\n+ second\n")
     = Some (bullet ++ go " first\n" ++ bullet ++ go " second\n").
Proof.
  split; [exact processValue_processed|].
  repeat split; try reflexivity.
  intros r rest. cbn [bulletLine]. case_bool_decide as H.
  - by replace ((r =? 45) || (r =? 43)) with true by lia.
  - by replace ((r =? 45) || (r =? 43)) with false by lia.
Qed.

(** C6.  For every input text [parseMarkdown] returns a mapping: no round of
    the loop and no flush panics, whatever sanitizer the revision uses.  The
    empty text gives the empty mapping, and so does every text none of whose
    lines carries a marker. *)
Theorem extractor_total (To_LowerCase : rune -> rune) (sanitize : gostring -> gostring) :
  (forall markdown, exists m, parseMarkdown To_LowerCase sanitize markdown = Some m)
  /\ parseMarkdown To_LowerCase sanitize (go "") = Some ∅
  /\ (forall markdown,
        Forall plainLine (Split markdown (go "\n")) ->
        parseMarkdown To_LowerCase sanitize markdown = Some ∅).
Proof.
  split; [apply parseMarkdown_total|].
  split; [|apply parseMarkdown_plain].
  apply parseMarkdown_plain. repeat constructor.
Qed.

Lemma extractor_total_witness :
  parseMarkdown sampleLowerCase (inlineSanitize sampleLowerCase)
    (go "no marker here\n  just text: with a colon inside\n# one hash only\n")
  = Some ∅.
Proof.
  apply (proj2 (proj2 (extractor_total sampleLowerCase (inlineSanitize sampleLowerCase)))).
  repeat constructor.
Defined.

(** C2, as the program has it.  A colon-prefixed line always splits into
    exactly two parts, so the branch that would ignore it is never taken:
    the round raises no error and writes one entry, whose key is the
    sanitized previous line (with the prefix, when one is active) and whose
    value is the trimmed text after the colon, which is the empty string for
    a line that is exactly ":".  The other entries and the Current Entry are
    left as they were. *)
Theorem colon_line_writes_entry (To_LowerCase : rune -> rune)
    (sanitize : gostring -> gostring) (st : ScanState) (line rest : gostring) :
  TrimSpace line = go ":" ++ rest ->
  length (SplitN (TrimSpace line) (go ":") 2) = 2%nat
  /\ step To_LowerCase sanitize st line
     = Some (mkScan (<[withPrefix (currentPrefix st)
                         (kebabDefinition (sanitize (previousLine st)))
                       := TrimSpace rest]> (data st))
               (currentPrefix st) (currentKey st) (currentValue st)
               (TrimSpace line))
  /\ TrimSpace (go "") = go "".
Proof.
  intros H. change (go ":" ++ rest) with (58 :: rest) in H.
  split; [by rewrite H, SplitN_colon|].
  split; [|done].
  rewrite (step_definition _ _ _ _ _ H). by rewrite H.
Qed.

Lemma colon_line_writes_entry_witness :
  step sampleLowerCase (inlineSanitize sampleLowerCase)
    (mkScan ∅ (go "intro") [] [] (go "Label Name")) (go ":")
  = Some (mkScan {[ go "intro-label-name" := go "" ]} (go "intro") [] []
            (go ":")).
Proof.
  pose proof (colon_line_writes_entry sampleLowerCase
                (inlineSanitize sampleLowerCase)
                (mkScan ∅ (go "intro") [] [] (go "Label Name")) (go ":") []
                eq_refl) as (_ & Hstep & _).
  exact Hstep.
Defined.

(** C2 as stated fails: with "Label" as the previous line, the line ":"
    changes the mapping, which is empty before and holds "label" after. *)
Lemma colon_line_counterexample :
  step sampleLowerCase (inlineSanitize sampleLowerCase)
    (mkScan ∅ [] [] [] (go "Label")) (go ":")
  = Some (mkScan {[ go "label" := go "" ]} [] [] [] (go ":"))
  /\ ({[ go "label" := go "" ]} : gmap gostring gostring) ≠ ∅.
Proof.
  split; [by vm_compute|].
  apply insert_non_empty.
Qed.

(** C7.  The text "## Section One", "### Field A", "Hello" (each line ended
    by a newline) gives the mapping with the single key
    "section-one-field-a", whose value is "Hello": the prefix is put in
    front of the entry key, and the entry still open at the end of the input
    is flushed with its value trimmed. *)
Theorem section_prefix_example (To_LowerCase : rune -> rune) :
  parseMarkdown To_LowerCase (inlineSanitize To_LowerCase)
    (go "## Section One\n### Field A\nHello\n")
  = Some {[ go "section-one-field-a" := go "Hello" ]}
  /\ parseMarkdown To_LowerCase (inlineSanitize To_LowerCase)
       (go "## Section One\n### Field A\nHello\n")
       ≫= (fun m => m !! go "section-one-field-a")
     = Some (go "Hello").
Proof. split; by vm_compute. Qed.

(** C8.  The text "### First", "Value1", "### Second", "Value2" gives
    exactly the mapping first -> Value1, second -> Value2.  At the second
    heading the value gathered so far is written under the key that is
    still current, "first", and only then does the round leave "second" as
    the current key: after that round the mapping holds first -> Value1 and
    nothing under "second". *)
Theorem two_entries_example (To_LowerCase : rune -> rune) :
  let scan := scanLines To_LowerCase (inlineSanitize To_LowerCase) in
  let before := mkScan ∅ [] (go "first") (go "Value1\n") (go "Value1") in
  parseMarkdown To_LowerCase (inlineSanitize To_LowerCase)
    (go "### First\nValue1\n### Second\nValue2\n")
  = Some {[ go "first" := go "Value1"; go "second" := go "Value2" ]}
  /\ scan initial [go "### First"; go "Value1"] = Some before
  /\ flush before = Some {[ go "first" := go "Value1" ]}
  /\ step To_LowerCase (inlineSanitize To_LowerCase) before (go "### Second")
     = Some (mkScan {[ go "first" := go "Value1" ]} [] (go "second") []
               (go "### Second")).
Proof. repeat split; by vm_compute. Qed.

(** C1 fails on the program.  The Section-Heading branch computes the
    sanitized prefix and overwrites it on the next line with the
    kebab-cased heading text, which was never filtered.  For the text
    "## A.B", "### X", "v" the sanitizer yields " ab" for the heading line,
    but the prefix that is kept is "a.b", and the entry is written under the
    key "a.b-x", which has a full stop in it. *)
Theorem prefix_keeps_punctuation (To_LowerCase : rune -> rune) :
  parseMarkdown To_LowerCase (inlineSanitize To_LowerCase)
    (go "## A.B\n### X\nv\n")
  = Some {[ go "a.b-x" := go "v" ]}
  /\ isKey (go "a.b-x") = false
  /\ inlineSanitize To_LowerCase (go "## A.B") = go " ab"
  /\ kebabSection To_LowerCase (go "## A.B") = go "a.b".
Proof. repeat split; by vm_compute. Qed.

(** ** Surplus heading markers *)

Lemma not_kept_hash : ~ kept 35.
Proof. unfold kept. lia. Qed.

Lemma inlineSanitize_hashes (To_LowerCase : rune -> rune) k rest :
  inlineSanitize To_LowerCase (repeat 35 k ++ rest) = inlineSanitize To_LowerCase rest.
Proof.
  induction k as [|k IH]; [done|]. cbn [repeat app].
  rewrite inlineSanitize_cons_dropped; [exact IH | lia | exact not_kept_hash | lia].
Qed.

(** C10.  A trimmed line that begins with four or more "#" is classified
    as an Entry-Heading.  Only the leading "###" is taken off as the marker;
    the surplus "#" characters are deleted by the sanitizer, so the key the
    round opens is the key of the text after all the "#" characters, with
    the prefix when one is active.  The pending entry is flushed and the new
    value starts empty.  The text " Deep" has the key "deep". *)
Theorem surplus_hashes_entry_heading (To_LowerCase : rune -> rune)
    (st : ScanState) (line : gostring) (k : nat) (rest : gostring) :
  TrimSpace line = repeat 35 (4 + k) ++ rest ->
  classify (TrimSpace line) = EntryHeading
  /\ TrimPrefix (TrimSpace line) (go "###") = repeat 35 (1 + k) ++ rest
  /\ entryKey To_LowerCase (inlineSanitize To_LowerCase) (repeat 35 (1 + k) ++ rest)
     = entryKey To_LowerCase (inlineSanitize To_LowerCase) rest
  /\ (exists data',
        flush st = Some data'
        /\ step To_LowerCase (inlineSanitize To_LowerCase) st line
           = Some (mkScan data' (currentPrefix st)
                     (withPrefix (currentPrefix st)
                        (entryKey To_LowerCase (inlineSanitize To_LowerCase) rest))
                     [] (TrimSpace line)))
  /\ entryKey To_LowerCase (inlineSanitize To_LowerCase) (go " Deep") = go "deep".
Proof.
  intros H.
  assert (Hline : TrimSpace line = go "###" ++ repeat 35 (1 + k) ++ rest) by (by rewrite H).
  assert (Hclass : classify (TrimSpace line) = EntryHeading).
  { unfold classify. by rewrite Hline, HasPrefix_app. }
  assert (Hkey : entryKey To_LowerCase (inlineSanitize To_LowerCase)
                   (repeat 35 (1 + k) ++ rest)
                 = entryKey To_LowerCase (inlineSanitize To_LowerCase) rest).
  { unfold entryKey. by rewrite inlineSanitize_hashes. }
  split; [exact Hclass|].
  split; [by rewrite Hline, TrimPrefix_app|].
  split; [exact Hkey|].
  split; [|by vm_compute].
  exists (flushed st). split; [apply flush_flushed|].
  rewrite step_entry by exact Hclass.
  rewrite Hline at 1. by rewrite TrimPrefix_app, Hkey.
Qed.

Lemma surplus_hashes_entry_heading_witness :
  step sampleLowerCase (inlineSanitize sampleLowerCase) initial (go "#### Deep")
  = Some (mkScan ∅ [] (go "deep") [] (go "#### Deep")).
Proof.
  destruct (surplus_hashes_entry_heading sampleLowerCase initial
              (go "#### Deep") 0 (go " Deep") eq_refl)
    as (_ & _ & _ & (d & Hflush & Hstep) & _).
  injection Hflush as <-. exact Hstep.
Defined.

(** ** The mapping handed to the Placeholder Filler *)

Lemma substRune_delete_absent c s : c ∉ substRune c [] s.
Proof.
  unfold substRune. induction s as [|r s IH]; [apply not_elem_of_nil|].
  cbn. case_bool_decide as Hrc; cbn; [done|].
  apply not_elem_of_cons. split; [congruence | done].
Qed.

Lemma cleanValue_no_asterisk value : 42 ∉ cleanValue value.
Proof.
  unfold cleanValue. change (go "*") with [42]. change (go "") with (@nil Z).
  rewrite ReplaceAll_single by done. apply substRune_delete_absent.
Qed.

(** C4, as the program has it.  src/markdowntoword.go copies every value
    into the mapping for the filler unchanged.  The revision of
    [replaceMustacheTags] in src/unnamed/part_000 that computes
    [cleanValue] hands over, for every key of the extractor's mapping, the
    value with "**" and then "*" deleted, and no "*" is left in it. *)
Theorem cleaned_values_have_no_asterisk :
  (forall data, replaceMap data = data)
  /\ (forall (data : gmap gostring gostring) key v,
        replaceMapClean data !! key = Some v ->
        (42 ∉ v) /\ exists raw, data !! key = Some raw /\ v = cleanValue raw).
Proof.
  split; [intros data; apply map_fmap_id|].
  intros data key v. unfold replaceMapClean. rewrite lookup_fmap.
  destruct (data !! key) as [raw|] eqn:E; [|done].
  intros [= <-]. split; [apply cleanValue_no_asterisk | by exists raw].
Qed.

Lemma cleaned_values_have_no_asterisk_witness :
  (42 ∉ go "Bold and plain") /\
  exists raw,
    ({[ go "title" := go "**Bold** and *plain*" ]} : gmap gostring gostring)
      !! go "title" = Some raw
    /\ go "Bold and plain" = cleanValue raw.
Proof.
  apply (proj2 cleaned_values_have_no_asterisk
           {[ go "title" := go "**Bold** and *plain*" ]} (go "title")).
  by vm_compute.
Defined.

(** C4 as stated fails on src/markdowntoword.go: for the text "### Title",
    "**Bold**" the value handed to the filler is "**Bold**", asterisks
    included. *)
Lemma filler_gets_asterisks :
  replaceMap <$> parseMarkdown sampleLowerCase (inlineSanitize sampleLowerCase)
                   (go "### Title\n**Bold**\n")
  = Some {[ go "title" := go "**Bold**" ]}
  /\ 42 ∈ go "**Bold**".
Proof. split; [by vm_compute | by left]. Qed.

(** ** The sanitizer of Entry-Heading text *)

Lemma substRune_single_map c d s :
  substRune c [d] s = map (fun r => if bool_decide (r = c) then d else r) s.
Proof.
  unfold substRune. induction s as [|r s IH]; [done|].
  cbn. rewrite <- IH. by case_bool_decide.
Qed.

(** The two [ReplaceAll] calls of the kebab-casing, taken together. *)
Lemma ReplaceAll_hyphens s :
  ReplaceAll (ReplaceAll s (go " ") (go "-")) (go "_") (go "-") = hyphenateEach s.
Proof.
  change (go " ") with [32]. change (go "-") with [45]. change (go "_") with [95].
  rewrite !ReplaceAll_single by done. rewrite !substRune_single_map, map_map.
  apply map_ext. intros r.
  destruct (decide (r = 32)) as [->|H32]; [done|].
  rewrite (bool_decide_false (r = 32)) by done.
  replace (r =? 32) with false by lia. cbn [orb].
  destruct (decide (r = 95)) as [->|H95]; [done|].
  rewrite bool_decide_false by done. by replace (r =? 95) with false by lia.
Qed.

Lemma Map_keepRune_Forall (P : Z -> Prop) s : Forall P s -> Forall P (Map keepRune s).
Proof.
  induction 1 as [|c s Hc Hs IH]; cbn; [constructor|].
  destruct (keepRune_cases c) as [[Hk ->]|[Hk ->]]; [|done].
  replace (0 <=? c) with true by (symmetry; unfold kept in Hk; lia).
  rewrite kept_valid by done. by constructor.
Qed.

Lemma hyphenateEach_Forall (P : Z -> Prop) s :
  P 45 -> Forall P s -> Forall P (hyphenateEach s).
Proof.
  intros H45 Hs. unfold hyphenateEach. apply Forall_map.
  eapply Forall_impl; [exact Hs|]. intros r Hr. cbn. by case_match.
Qed.

Lemma hyphenateEach_kept s :
  Forall kept s -> Forall (fun r => kept r /\ r ≠ 32 /\ r ≠ 95) (hyphenateEach s).
Proof.
  intros H. unfold hyphenateEach. apply Forall_map.
  eapply Forall_impl; [exact H|].
  intros r Hr. cbn. unfold kept in *.
  destruct (Z.eqb_spec r 32); cbn; [lia|].
  destruct (Z.eqb_spec r 95); cbn; lia.
Qed.

Lemma hyphenateEach_id s :
  Forall (fun r => r ≠ 32 /\ r ≠ 95) s -> hyphenateEach s = s.
Proof.
  unfold hyphenateEach.
  induction 1 as [|r s [H32 H95] Hs IH]; cbn [map]; [done|].
  replace (r =? 32) with false by lia. replace (r =? 95) with false by lia.
  cbn [orb]. by rewrite IH.
Qed.

Section Sanitizer.
Variable To_LowerCase : rune -> rune.

Local Abbreviation ToLowerT := (ToLower To_LowerCase).
Local Abbreviation sanitizeT := (inlineSanitize To_LowerCase).
Local Abbreviation entryKeyT := (entryKey To_LowerCase (inlineSanitize To_LowerCase)).

Lemma forallb_isASCII s : Forall (fun r => 0 <= r < 128) s -> forallb isASCII s = true.
Proof.
  induction 1 as [|r s Hr Hs IH]; [done|]. cbn. rewrite IH.
  unfold isASCII, RuneSelf. by replace ((0 <=? r) && (r <? 128)) with true by lia.
Qed.

Lemma existsb_isUpperASCII s :
  Forall (fun r => ~ 65 <= r <= 90) s -> existsb isUpperASCII s = false.
Proof.
  induction 1 as [|r s Hr Hs IH]; [done|]. cbn. rewrite IH.
  unfold isUpperASCII. by replace ((65 <=? r) && (r <=? 90)) with false by lia.
Qed.

(** ASCII text without capitals is what [strings.ToLower] returns as it is. *)
Lemma ToLower_id s :
  Forall (fun r => 0 <= r < 128 /\ ~ 65 <= r <= 90) s -> ToLowerT s = s.
Proof.
  intros H. unfold ToLower.
  rewrite forallb_isASCII by (eapply Forall_impl; [exact H | by intros ? []]).
  by rewrite existsb_isUpperASCII by (eapply Forall_impl; [exact H | by intros ? []]).
Qed.

(** On ASCII text [strings.ToLower] lower-cases rune by rune. *)
Lemma ToLower_ascii s :
  Forall (fun r => 0 <= r < 128) s -> ToLowerT s = map lowerASCII s.
Proof.
  intros H. unfold ToLower. rewrite forallb_isASCII by done.
  destruct (existsb isUpperASCII s) eqn:Hup; [done|].
  clear H. induction s as [|c s IH]; [done|].
  cbn in Hup. apply orb_false_elim in Hup as [Hc Hs].
  cbn. rewrite <- (IH Hs). unfold lowerASCII. by rewrite Hc.
Qed.

Lemma kebabEntry_hyphenate key :
  kebabEntry To_LowerCase key = ToLowerT (hyphenateEach (TrimSpace key)).
Proof. unfold kebabEntry. by rewrite ReplaceAll_hyphens. Qed.

Lemma isKey_Forall key : isKey key = true <-> Forall (fun r => isKeyRune r = true) key.
Proof. unfold isKey. rewrite forallb_forall, Forall_forall. by setoid_rewrite list_elem_of_In. Qed.

(** The runes left after filtering, trimming and hyphenating. *)
Lemma hyphenated_kept x :
  Forall (fun r => kept r /\ r ≠ 32 /\ r ≠ 95)
    (hyphenateEach (TrimSpace (sanitizeT x))).
Proof. apply hyphenateEach_kept, TrimSpace_Forall, inlineSanitize_kept. Qed.

(** The local key of an Entry-Heading satisfies the output condition. *)
Lemma entryKey_isKey x : isKey (entryKeyT x) = true.
Proof.
  unfold entryKey. rewrite kebabEntry_hyphenate.
  pose proof (hyphenated_kept x) as H.
  rewrite ToLower_ascii
    by (eapply Forall_impl; [exact H | unfold kept; intros ? ?; lia]).
  apply isKey_Forall, Forall_map.
  eapply Forall_impl; [exact H|]. intros r Hr. cbn.
  unfold isKeyRune, lowerASCII, isUpperASCII, kept in *.
  destruct ((65 <=? r) && (r <=? 90)) eqn:Hup; lia.
Qed.

(** A string that satisfies the output condition is its own key. *)
Lemma entryKey_fixed key : isKey key = true -> entryKeyT key = key.
Proof.
  intros H%isKey_Forall.
  assert (Hlow : ToLowerT key = key).
  { apply ToLower_id. eapply Forall_impl; [exact H|].
    intros r Hr. unfold isKeyRune in Hr. lia. }
  assert (Hmap : Map keepRune key = key).
  { apply Map_id. eapply Forall_impl; [exact H|].
    intros r Hr. unfold isKeyRune in Hr.
    unfold keepRune, ValidRune, MaxRune. split; [|lia].
    case_match; [done | lia]. }
  assert (Htrim : TrimSpace key = key).
  { apply TrimSpace_id. eapply Forall_impl; [exact H|].
    intros r Hr. unfold isKeyRune in Hr. unfold IsSpace.
    replace ((0 <=? r) && (r <=? 255)) with true by lia. lia. }
  assert (Hhyp : hyphenateEach key = key).
  { apply hyphenateEach_id. eapply Forall_impl; [exact H|].
    intros r Hr. unfold isKeyRune in Hr. lia. }
  unfold entryKey, inlineSanitize.
  by rewrite kebabEntry_hyphenate, Hlow, Hmap, Htrim, Hhyp, Hlow.
Qed.
End Sanitizer.

(** C5.  The sanitizer of Entry-Heading text (case folding, character
    filter, trim, kebab-casing) is idempotent, whatever the lower-case table
    holds. *)
Theorem sanitizer_idempotent (To_LowerCase : rune -> rune) (s : gostring) :
  entryKey To_LowerCase (inlineSanitize To_LowerCase)
    (entryKey To_LowerCase (inlineSanitize To_LowerCase) s)
  = entryKey To_LowerCase (inlineSanitize To_LowerCase) s.
Proof. apply entryKey_fixed, entryKey_isKey. Qed.

(** ** The sanitizer as a pipeline *)

Section Pipeline.
Variable To_LowerCase : rune -> rune.
(** No row of the lower-case table yields an ASCII capital. *)
Hypothesis lower_not_capital : forall r, 127 < r -> ~ 65 <= To_LowerCase r <= 90.

Lemma unicode_ToLower_not_capital c : ~ 65 <= unicode_ToLower To_LowerCase c <= 90.
Proof.
  unfold unicode_ToLower. destruct (Z.leb_spec c 127) as [Hc|Hc].
  - destruct ((65 <=? c) && (c <=? 90)) eqn:Hup; lia.
  - by apply lower_not_capital.
Qed.

Lemma ToLower_no_capitals s :
  Forall (fun r => ~ 65 <= r <= 90) (ToLower To_LowerCase s).
Proof.
  rewrite ToLower_Map. induction s as [|c s IH]; cbn; [constructor|].
  destruct (0 <=? unicode_ToLower To_LowerCase c); [|done].
  constructor; [|done]. unfold WriteRune.
  destruct (ValidRune _); [apply unicode_ToLower_not_capital | unfold RuneError; lia].
Qed.

(** The closing [strings.ToLower] of the kebab-casing finds nothing to do. *)
Lemma entryKey_pipeline s :
  entryKey To_LowerCase (inlineSanitize To_LowerCase) s
  = pipelineSanitize To_LowerCase s.
Proof.
  unfold entryKey, pipelineSanitize. rewrite kebabEntry_hyphenate.
  apply ToLower_id, Forall_and. split.
  - eapply Forall_impl; [apply hyphenated_kept|].
    unfold kept. intros r Hr. cbn in Hr. lia.
  - apply hyphenateEach_Forall; [lia|].
    apply TrimSpace_Forall, Map_keepRune_Forall, ToLower_no_capitals.
Qed.
End Pipeline.

Lemma inClass_ascii_kept r : inClass isAsciiLetter isAsciiDigit r = true <-> kept r.
Proof.
  unfold inClass, isAsciiLetter, isAsciiDigit, kept.
  destruct (Z.leb_spec 97 r), (Z.leb_spec r 122), (Z.leb_spec 65 r),
    (Z.leb_spec r 90), (Z.leb_spec 48 r), (Z.leb_spec r 57),
    (Z.eqb_spec r 32), (Z.eqb_spec r 95), (Z.eqb_spec r 45);
    cbn; split; (done || lia).
Qed.

(** The filter of src/markdowntoword.go deletes exactly the characters that
    are not an ASCII letter, an ASCII digit, a space, an underscore or a
    hyphen. *)
Lemma Map_keepRune_deleteOthers x :
  Map keepRune x = deleteOthers isAsciiLetter isAsciiDigit x.
Proof.
  unfold deleteOthers. induction x as [|c x IH]; [done|]. cbn [Map].
  destruct (keepRune_cases c) as [[Hk ->]|[Hk ->]].
  - rewrite filter_cons_True by (by apply inClass_ascii_kept).
    replace (0 <=? c) with true by (symmetry; unfold kept in Hk; lia).
    by rewrite kept_valid, IH.
  - rewrite filter_cons_False by (by rewrite inClass_ascii_kept). exact IH.
Qed.

(** So does the filter of [sanitizeKey], for the letters and numbers of
    package unicode, which are valid runes. *)
Lemma Map_keepUnicode_deleteOthers (IsLetter IsNumber : rune -> bool) x :
  (forall r, IsLetter r = true -> ValidRune r = true) ->
  (forall r, IsNumber r = true -> ValidRune r = true) ->
  Map (keepUnicode IsLetter IsNumber) x = deleteOthers IsLetter IsNumber x.
Proof.
  intros HL HN. unfold deleteOthers. induction x as [|c x IH]; [done|].
  cbn [Map].
  change (keepUnicode IsLetter IsNumber c)
    with (if inClass IsLetter IsNumber c then c else -1).
  destruct (inClass IsLetter IsNumber c) eqn:Hc.
  - rewrite filter_cons_True by done.
    assert (Hv : ValidRune c = true).
    { unfold inClass in Hc.
      destruct (IsLetter c) eqn:El; [by apply HL|].
      destruct (IsNumber c) eqn:En; [by apply HN|].
      cbn in Hc. unfold ValidRune, MaxRune. revert Hc.
      destruct (Z.eqb_spec c 32) as [->|?]; [done|].
      destruct (Z.eqb_spec c 95) as [->|?]; [done|].
      destruct (Z.eqb_spec c 45) as [->|?]; [done|]. cbn. discriminate. }
    cbv beta iota zeta. unfold WriteRune. rewrite Hv, IH.
    replace (0 <=? c) with true; [done|].
    unfold ValidRune, MaxRune in Hv.
    destruct (Z.leb_spec 0 c); [done|].
    destruct (Z.ltb_spec 57343 c); [lia|]. cbn in Hv. discriminate.
  - rewrite filter_cons_False by (by rewrite Hc). cbv beta iota zeta. exact IH.
Qed.

(** C3, as the program has it.  For every string the sanitizer of
    Entry-Heading text returns the result of the pipeline: case-fold the
    string, delete every character that is not a letter, a digit, a space, an
    underscore or a hyphen, trim, then replace each space by a hyphen and
    each underscore by a hyphen; two adjacent interior spaces give two
    hyphens.  The letters and digits are those of the filter of the
    revision: a-z, A-Z and 0-9 in src/markdowntoword.go, [unicode.IsLetter]
    and [unicode.IsNumber] in [sanitizeKey], whose call site lower-cases the
    result once more. *)
Theorem sanitizer_is_pipeline (To_LowerCase : rune -> rune)
    (lower_not_capital : forall r, 127 < r -> ~ 65 <= To_LowerCase r <= 90)
    (Fold : gostring -> gostring) (IsLetter IsNumber : rune -> bool)
    (letters_valid : forall r, IsLetter r = true -> ValidRune r = true)
    (numbers_valid : forall r, IsNumber r = true -> ValidRune r = true)
    (s : gostring) :
  entryKey To_LowerCase (inlineSanitize To_LowerCase) s
  = hyphenateEach (TrimSpace (Map keepRune (ToLower To_LowerCase s)))
  /\ entryKey To_LowerCase (inlineSanitize To_LowerCase) s
     = hyphenateEach
         (TrimSpace (deleteOthers isAsciiLetter isAsciiDigit (ToLower To_LowerCase s)))
  /\ entryKey To_LowerCase (sanitizeKey Fold IsLetter IsNumber) s
     = ToLower To_LowerCase
         (hyphenateEach (TrimSpace (deleteOthers IsLetter IsNumber (Fold s))))
  /\ hyphenateEach (go "a  b") = go "a--b".
Proof.
  split; [by apply entryKey_pipeline|].
  split; [rewrite <- Map_keepRune_deleteOthers; by apply entryKey_pipeline|].
  split; [|reflexivity].
  unfold entryKey, sanitizeKey. rewrite kebabEntry_hyphenate.
  by rewrite Map_keepUnicode_deleteOthers.
Qed.

Lemma sanitizer_is_pipeline_witness :
  entryKey sampleLowerCase (inlineSanitize sampleLowerCase) (go " Field, A!")
  = hyphenateEach (TrimSpace (Map keepRune (ToLower sampleLowerCase (go " Field, A!"))))
  /\ entryKey sampleLowerCase (inlineSanitize sampleLowerCase) (go " Field, A!")
     = hyphenateEach
         (TrimSpace (deleteOthers isAsciiLetter isAsciiDigit
                       (ToLower sampleLowerCase (go " Field, A!"))))
  /\ entryKey sampleLowerCase (sanitizeKey sampleFold sampleIsLetter sampleIsNumber)
       (go " Field, A!")
     = ToLower sampleLowerCase
         (hyphenateEach
            (TrimSpace (deleteOthers sampleIsLetter sampleIsNumber
                          (sampleFold (go " Field, A!")))))
  /\ hyphenateEach (go "a  b") = go "a--b".
Proof.
  apply sanitizer_is_pipeline.
  - intros r Hr. unfold sampleLowerCase. repeat case_match; lia.
  - intros r Hr. unfold sampleIsLetter in Hr. unfold ValidRune, MaxRune.
    destruct (Z.leb_spec 0 r), (Z.ltb_spec r 55296); try done;
      destruct (Z.leb_spec 97 r), (Z.leb_spec r 122), (Z.leb_spec 65 r),
        (Z.leb_spec r 90), (Z.leb_spec 192 r), (Z.leb_spec r 255);
      cbn in Hr; try done; lia.
  - intros r Hr. unfold sampleIsNumber in Hr. unfold ValidRune, MaxRune.
    destruct (Z.leb_spec 0 r), (Z.ltb_spec r 55296); try done;
      destruct (Z.leb_spec 48 r), (Z.leb_spec r 57), (Z.eqb_spec r 178),
        (Z.eqb_spec r 179), (Z.eqb_spec r 185);
      cbn in Hr; try done; lia.
Defined.

(** C3 as stated fails.  For "a  b", with two spaces, the sanitizer returns
    "a--b" in either revision, while the reference pipeline, which turns the
    run of spaces into one hyphen, gives "a-b" under either reading of
    "letter" and "digit".  And the letter e with acute accent (rune 233),
    which the reference pipeline keeps, is deleted by the filter of
    src/markdowntoword.go: "caf" and that letter give "caf". *)
Lemma sanitizer_runs_counterexample :
  entryKey sampleLowerCase (inlineSanitize sampleLowerCase) (go "a  b") = go "a--b"
  /\ entryKey sampleLowerCase (sanitizeKey sampleFold sampleIsLetter sampleIsNumber)
       (go "a  b") = go "a--b"
  /\ referenceSanitize (ToLower sampleLowerCase) isAsciiLetter isAsciiDigit (go "a  b")
     = go "a-b"
  /\ referenceSanitize sampleFold sampleIsLetter sampleIsNumber (go "a  b") = go "a-b"
  /\ entryKey sampleLowerCase (inlineSanitize sampleLowerCase) (go "a  b")
     ≠ referenceSanitize (ToLower sampleLowerCase) isAsciiLetter isAsciiDigit (go "a  b")
  /\ entryKey sampleLowerCase (inlineSanitize sampleLowerCase) (go "caf" ++ [233])
     = go "caf"
  /\ referenceSanitize sampleFold sampleIsLetter sampleIsNumber (go "caf" ++ [233])
     = go "caf" ++ [233].
Proof. repeat split; by vm_compute. Qed.

(** ** The revisions that call [sanitizeKey] *)

Lemma Map_ext_Forall f g s : Forall (fun r => f r = g r) s -> Map f s = Map g s.
Proof. induction 1 as [|r s Hr Hs IH]; cbn; [done|]. by rewrite Hr, IH. Qed.

Lemma lowerASCII_ascii s : asciiOnly s -> asciiOnly (map lowerASCII s).
Proof.
  intros H. apply Forall_map. eapply Forall_impl; [exact H|].
  intros r Hr. cbn beta in *. unfold lowerASCII, isUpperASCII.
  destruct (Z.leb_spec 65 r), (Z.leb_spec r 90); cbn [andb]; lia.
Qed.

Section Revisions.
Variable To_LowerCase : rune -> rune.
Variable Fold : gostring -> gostring.
Variables IsLetter IsNumber : rune -> bool.

(** What the library functions do on ASCII text. *)
Hypothesis Fold_ascii : forall s, asciiOnly s -> Fold s = map lowerASCII s.
Hypothesis IsLetter_ascii : forall r, 0 <= r < 128 ->
  IsLetter r = ((97 <=? r) && (r <=? 122)) || ((65 <=? r) && (r <=? 90)).
Hypothesis IsNumber_ascii : forall r, 0 <= r < 128 ->
  IsNumber r = (48 <=? r) && (r <=? 57).

(** On ASCII text [sanitizeKey] returns what the inlined expression of
    src/markdowntoword.go returns. *)
Lemma sanitizeKey_ascii s :
  asciiOnly s ->
  sanitizeKey Fold IsLetter IsNumber s = inlineSanitize To_LowerCase s.
Proof.
  intros H. unfold sanitizeKey, inlineSanitize.
  rewrite (Fold_ascii _ H), (ToLower_ascii _ _ H).
  apply Map_ext_Forall.
  eapply Forall_impl; [exact (lowerASCII_ascii _ H)|].
  intros r Hr. cbn beta. unfold keepUnicode, keepRune.
  rewrite (IsLetter_ascii _ Hr), (IsNumber_ascii _ Hr).
  match goal with
  | |- (if ?c1 then _ else _) = (if ?c2 then _ else _) =>
      replace c1 with c2 by btauto
  end.
  done.
Qed.

(** The Entry-Heading key of those revisions on ASCII text. *)
Lemma entryKey_revisions_ascii s :
  asciiOnly s ->
  entryKey To_LowerCase (sanitizeKey Fold IsLetter IsNumber) s
  = entryKey To_LowerCase (inlineSanitize To_LowerCase) s.
Proof. intros H. unfold entryKey. by rewrite sanitizeKey_ascii. Qed.

Lemma isKey_ascii key : isKey key = true -> asciiOnly key.
Proof.
  intros H%isKey_Forall. eapply Forall_impl; [exact H|].
  intros r Hr. unfold isKeyRune in Hr. cbn beta. lia.
Qed.

(** Idempotence carries over to those revisions on ASCII text. *)
Lemma entryKey_revisions_idempotent s :
  asciiOnly s ->
  let key := entryKey To_LowerCase (sanitizeKey Fold IsLetter IsNumber) in
  key (key s) = key s.
Proof.
  intros H key. unfold key.
  rewrite (entryKey_revisions_ascii s H).
  rewrite entryKey_revisions_ascii by apply isKey_ascii, entryKey_isKey.
  apply entryKey_fixed, entryKey_isKey.
Qed.
End Revisions.

(** The stand-ins meet the three assumptions, so the lemmas above apply to
    them. *)
Lemma sample_revision_idempotent :
  let key := entryKey sampleLowerCase (sanitizeKey sampleFold sampleIsLetter sampleIsNumber) in
  key (go " Field, A!") = go "field-a"
  /\ key (key (go " Field, A!")) = key (go " Field, A!").
Proof.
  split; [by vm_compute|].
  apply (entryKey_revisions_idempotent sampleLowerCase sampleFold
           sampleIsLetter sampleIsNumber).
  - intros s Hs. unfold sampleFold.
    induction Hs as [|r s Hr Hs IH]; [done|]. cbn beta in Hr.
    rewrite bind_cons, IH. unfold sampleFoldRune.
    replace (r =? 223) with false by lia. replace (r =? 181) with false by lia.
    replace (r =? 304) with false by lia. cbn [app map]. f_equal.
    unfold unicode_ToLower, lowerASCII, isUpperASCII.
    by replace (r <=? 127) with true by lia.
  - intros r Hr. unfold sampleIsLetter.
    replace ((192 <=? r) && (r <=? 255) && negb (r =? 215) && negb (r =? 247))
      with false by lia.
    by rewrite orb_false_r.
  - intros r Hr. unfold sampleIsNumber.
    replace (r =? 178) with false by lia. replace (r =? 179) with false by lia.
    replace (r =? 185) with false by lia. by rewrite !orb_false_r.
  - unfold asciiOnly. apply (bool_decide_unpack _). by vm_compute.
Qed.

(** ** The keys the loop writes *)

Section WrittenKeys.
Variable To_LowerCase : rune -> rune.
Hypothesis lower_not_capital : forall r, 127 < r -> ~ 65 <= To_LowerCase r <= 90.

Local Abbreviation sanitizeT := (inlineSanitize To_LowerCase).

(** The local key of a Definition-Entry meets the output condition. *)
Lemma definitionKey_isKey previous : isKey (kebabDefinition (sanitizeT previous)) = true.
Proof.
  unfold kebabDefinition. rewrite ReplaceAll_hyphens.
  apply isKey_Forall.
  assert (Hkept := hyphenateEach_kept _ (inlineSanitize_kept To_LowerCase previous)).
  assert (Hlow : Forall (fun r => ~ 65 <= r <= 90) (hyphenateEach (sanitizeT previous))).
  { apply hyphenateEach_Forall; [lia|].
    by apply Map_keepRune_Forall, ToLower_no_capitals. }
  eapply Forall_impl; [apply Forall_and; split; [exact Hkept | exact Hlow]|].
  intros r [(Hk & H32 & H95) Hup]. unfold isKeyRune, kept in *. lia.
Qed.

Lemma flushed_writes st :
  entryShape st ->
  flushed st = data st
  \/ exists key value, flushed st = <[key := value]> (data st)
                       /\ keyShape (currentPrefix st) key.
Proof.
  intros Hshape. unfold flushed. case_bool_decide as Hkey; [|by left].
  right. destruct Hshape as [Hnil|Hshape]; [done|]. eauto.
Qed.

(** One round of the loop writes at most one entry, under a key made of
    the prefix active at that moment and a local key that meets the output
    condition; the Current Entry keeps that shape. *)
Lemma step_written_key st line st' :
  entryShape st ->
  step To_LowerCase sanitizeT st line = Some st' ->
  entryShape st'
  /\ (data st' = data st
      \/ exists key value, data st' = <[key := value]> (data st)
                           /\ keyShape (currentPrefix st) key).
Proof.
  intros Hshape.
  destruct (classify_cases (TrimSpace line)) as [H|[[rest H]|[H|H]]].
  - rewrite step_entry by done. intros [= <-]. cbn. split.
    + right. eexists. split; [done|]. apply entryKey_isKey.
    + by apply flushed_writes.
  - rewrite (step_definition _ _ _ _ _ H). intros [= <-]. cbn. split; [done|].
    right. eexists _, _. split; [done|].
    eexists. split; [done|]. apply definitionKey_isKey.
  - rewrite step_section by done. intros [= <-]. cbn. split; [by left|].
    by apply flushed_writes.
  - rewrite step_plain by done. intros [= <-]. cbn. split; [done | by left].
Qed.

(** Every key of the final mapping has that shape for some prefix. *)
Lemma scanLines_keys lines : forall st st',
  entryShape st ->
  (forall key, is_Some (data st !! key) -> exists prefix, keyShape prefix key) ->
  scanLines To_LowerCase sanitizeT st lines = Some st' ->
  entryShape st'
  /\ (forall key, is_Some (data st' !! key) -> exists prefix, keyShape prefix key).
Proof.
  induction lines as [|line lines IH]; intros st st' Hshape Hkeys; cbn [scanLines].
  { by intros [= <-]. }
  destruct (step_total To_LowerCase sanitizeT st line) as [st1 Hstep].
  rewrite Hstep. cbn.
  destruct (step_written_key _ _ _ Hshape Hstep) as [Hshape1 Hdata].
  apply (IH st1 st' Hshape1). intros key Hsome.
  destruct Hdata as [Heq|(key' & value & Heq & Hk)];
    rewrite Heq in Hsome; [by apply Hkeys|].
  destruct (decide (key' = key)) as [<-|Hne]; [eauto|].
  rewrite lookup_insert_ne in Hsome by done. by apply Hkeys.
Qed.

Lemma parseMarkdown_keys markdown m key :
  parseMarkdown To_LowerCase sanitizeT markdown = Some m ->
  is_Some (m !! key) ->
  exists prefix localKey, key = withPrefix prefix localKey /\ isKey localKey = true.
Proof.
  unfold parseMarkdown.
  destruct (scanLines_total To_LowerCase sanitizeT (Split markdown (go "\n")) initial)
    as [st Hscan].
  rewrite Hscan. cbn. rewrite flush_flushed. intros [= <-] Hsome.
  assert (Hinit : entryShape initial) by (by left).
  assert (Hempty : forall key, is_Some (data initial !! key) ->
                               exists prefix, keyShape prefix key).
  { intros k Hk. cbn in Hk. rewrite lookup_empty in Hk. by destruct Hk. }
  destruct (scanLines_keys _ _ _ Hinit Hempty Hscan) as [Hshape Hkeys].
  assert (forall key, is_Some (flushed st !! key) -> exists prefix, keyShape prefix key)
    as Hall.
  { intros k Hk. destruct (flushed_writes st Hshape) as [Heq|(k' & v & Heq & Hk')];
      rewrite Heq in Hk; [by apply Hkeys|].
    destruct (decide (k' = k)) as [<-|Hne]; [eauto|].
    rewrite lookup_insert_ne in Hk by done. by apply Hkeys. }
  destruct (Hall key Hsome) as (prefix & localKey & ? & ?). eauto.
Qed.
End WrittenKeys.

(** ** Further properties of the scan loop *)

Lemma TrimRightFunc_idem f s : TrimRightFunc (TrimRightFunc s f) f = TrimRightFunc s f.
Proof.
  induction s as [|r s IH]; [done|]. cbn [TrimRightFunc].
  destruct (TrimRightFunc s f) as [|t ts] eqn:E.
  - destruct (f r) eqn:Hr; [done|]. cbn. by rewrite Hr.
  - cbn [TrimRightFunc] in *. by rewrite IH.
Qed.

Lemma TrimLeftFunc_head f s :
  TrimLeftFunc s f = [] \/ exists r t, TrimLeftFunc s f = r :: t /\ f r = false.
Proof.
  induction s as [|r s IH]; [by left|]. cbn.
  destruct (f r) eqn:Hr; [done|]. right. by exists r, s.
Qed.

Lemma TrimRightFunc_head f r t :
  f r = false -> exists t', TrimRightFunc (r :: t) f = r :: t'.
Proof.
  intros Hr. cbn. destruct (TrimRightFunc t f); [|by eexists].
  rewrite Hr. by eexists.
Qed.

(** [strings.TrimSpace] finds nothing left to trim in its own result. *)
Lemma TrimSpace_idem s : TrimSpace (TrimSpace s) = TrimSpace s.
Proof.
  unfold TrimSpace, TrimFunc.
  destruct (TrimLeftFunc_head IsSpace s) as [->|(r & t & -> & Hr)]; [done|].
  destruct (TrimRightFunc_head IsSpace r t Hr) as [t' Ht'].
  assert (TrimLeftFunc (TrimRightFunc (r :: t) IsSpace) IsSpace
          = TrimRightFunc (r :: t) IsSpace) as ->.
  { rewrite Ht'. cbn. by rewrite Hr. }
  apply TrimRightFunc_idem.
Qed.

Lemma flushed_trimmed st :
  map_Forall (fun _ v => isTrimmed v) (data st) ->
  map_Forall (fun _ v => isTrimmed v) (flushed st).
Proof.
  intros H. unfold flushed. case_bool_decide; [|done].
  apply map_Forall_insert_2; [apply TrimSpace_idem | done].
Qed.

Lemma flushed_dom st : dom (data st) ⊆ dom (flushed st).
Proof. unfold flushed. case_bool_decide; [apply dom_insert_subseteq | done]. Qed.

Section ScanProperties.
Variable To_LowerCase : rune -> rune.
Variable sanitize : gostring -> gostring.

Local Abbreviation stepS := (step To_LowerCase sanitize).
Local Abbreviation scanS := (scanLines To_LowerCase sanitize).

Lemma step_trimmed st line st' :
  stepS st line = Some st' ->
  map_Forall (fun _ v => isTrimmed v) (data st) ->
  map_Forall (fun _ v => isTrimmed v) (data st').
Proof.
  destruct (classify_cases (TrimSpace line)) as [H|[[rest H]|[H|H]]].
  - rewrite step_entry by done. intros [= <-]. apply flushed_trimmed.
  - rewrite (step_definition _ _ _ _ _ H). intros [= <-] Hd. cbn.
    apply map_Forall_insert_2; [apply TrimSpace_idem | done].
  - rewrite step_section by done. intros [= <-]. apply flushed_trimmed.
  - rewrite step_plain by done. by intros [= <-].
Qed.

Lemma scanLines_trimmed lines : forall st st',
  scanS st lines = Some st' ->
  map_Forall (fun _ v => isTrimmed v) (data st) ->
  map_Forall (fun _ v => isTrimmed v) (data st').
Proof.
  induction lines as [|line lines IH]; intros st st'; cbn [scanLines].
  { by intros [= <-]. }
  destruct (step_total To_LowerCase sanitize st line) as [st1 Hstep].
  rewrite Hstep. cbn. intros Hscan Hd.
  apply (IH _ _ Hscan). by apply (step_trimmed _ _ _ Hstep).
Qed.

Lemma step_dom st line st' :
  stepS st line = Some st' -> dom (data st) ⊆ dom (data st').
Proof.
  destruct (classify_cases (TrimSpace line)) as [H|[[rest H]|[H|H]]].
  - rewrite step_entry by done. intros [= <-]. apply flushed_dom.
  - rewrite (step_definition _ _ _ _ _ H). intros [= <-]. apply dom_insert_subseteq.
  - rewrite step_section by done. intros [= <-]. apply flushed_dom.
  - rewrite step_plain by done. by intros [= <-].
Qed.

Lemma scanLines_dom lines : forall st st',
  scanS st lines = Some st' -> dom (data st) ⊆ dom (data st').
Proof.
  induction lines as [|line lines IH]; intros st st'; cbn [scanLines].
  { by intros [= <-]. }
  destruct (step_total To_LowerCase sanitize st line) as [st1 Hstep].
  rewrite Hstep. cbn. intros Hscan.
  etrans; [exact (step_dom _ _ _ Hstep) | exact (IH _ _ Hscan)].
Qed.

Lemma scanLines_app lines1 lines2 st :
  scanS st (lines1 ++ lines2) = scanS st lines1 ≫= (fun st1 => scanS st1 lines2).
Proof.
  revert st. induction lines1 as [|line lines1 IH]; intros st; [done|].
  cbn [app scanLines]. destruct (stepS st line) as [st1|]; [|done].
  cbn. apply IH.
Qed.

(** Plain-Text lines change nothing but the value of an open entry and
    the previous line. *)
Lemma scanLines_plain_state lines : forall st,
  Forall plainLine lines ->
  exists st',
    scanS st lines = Some st'
    /\ data st' = data st /\ currentPrefix st' = currentPrefix st
    /\ currentKey st' = currentKey st
    /\ currentValue st'
       = if bool_decide (currentKey st ≠ [])
         then currentValue st ++ accumulated lines else currentValue st.
Proof.
  induction lines as [|line lines IH]; intros st Hplain.
  { exists st. repeat split. unfold accumulated. cbn.
    rewrite app_nil_r. by case_bool_decide. }
  apply Forall_cons in Hplain as [Hline Hlines].
  cbn [scanLines]. rewrite step_plain by done.
  destruct (IH (mkScan (data st) (currentPrefix st) (currentKey st)
                  (if bool_decide (currentKey st ≠ [])
                   then currentValue st ++ TrimSpace line ++ go "\n"
                   else currentValue st) (TrimSpace line)) Hlines)
    as (st' & Hscan & Hd & Hp & Hk & Hv).
  exists st'. split; [exact Hscan|]. cbn in Hd, Hp, Hk, Hv.
  repeat split; try done.
  rewrite Hv. case_bool_decide; [|done].
  unfold accumulated. cbn [map concat]. by rewrite <- !app_assoc.
Qed.
End ScanProperties.

(** ** Splitting and joining on one rune *)

Lemma occurrences_le c s : (occurrences c s <= length s)%nat.
Proof. unfold occurrences. apply length_filter. Qed.

Lemma Split_single c s : Split s [c] = splitLoop (occurrences c s) s [c].
Proof.
  unfold Split, genSplit. cbn [Z.eqb Z.ltb Z.compare]. rewrite Count_single.
  f_equal. pose proof (occurrences_le c s). lia.
Qed.

Lemma splitLoop_nonempty n s sep : splitLoop n s sep ≠ [].
Proof. destruct n; cbn; [done|]. by destruct (Index s sep). Qed.

Lemma Join_cons_cons e e' es sep :
  Join (e :: e' :: es) sep = e ++ sep ++ Join (e' :: es) sep.
Proof. reflexivity. Qed.

Lemma Join_cons e es sep : es ≠ [] -> Join (e :: es) sep = e ++ sep ++ Join es sep.
Proof. destruct es; [done|]. intros _. apply Join_cons_cons. Qed.

(** Joining what [splitLoop] cut gives the string back. *)
Lemma splitLoop_Join c n : forall s, Join (splitLoop n s [c]) [c] = s.
Proof.
  induction n as [|n IH]; intros s; [done|]. cbn [splitLoop].
  destruct (Index s [c]) as [m|] eqn:E; [|done].
  rewrite Join_cons by apply splitLoop_nonempty. rewrite IH. cbn [length].
  symmetry. exact (proj1 (Index_single_Some _ _ _ E)).
Qed.

Lemma splitLoop_pieces c n : forall s,
  (occurrences c s <= n)%nat -> Forall (fun piece => c ∉ piece) (splitLoop n s [c]).
Proof.
  induction n as [|n IH]; intros s Hocc; cbn [splitLoop].
  { repeat constructor. apply occurrences_zero. lia. }
  destruct (Index s [c]) as [m|] eqn:E.
  - destruct (Index_single_Some _ _ _ E) as [Hs Hpre]. constructor; [done|].
    apply IH. cbn [length].
    rewrite Hs, occurrences_app, occurrences_hit in Hocc. lia.
  - repeat constructor. by apply Index_single_None.
Qed.

Lemma Split_pieces c s : Forall (fun piece => c ∉ piece) (Split s [c]).
Proof. rewrite Split_single. by apply splitLoop_pieces. Qed.

Lemma Split_Join_id c s : Join (Split s [c]) [c] = s.
Proof. rewrite Split_single. apply splitLoop_Join. Qed.

Lemma Index_single_app c e t : c ∉ e -> Index (e ++ c :: t) [c] = Some (length e).
Proof.
  induction e as [|r e IH]; cbn [app length].
  - intros _. by rewrite Index_cons_single, bool_decide_true.
  - intros [Hne He]%not_elem_of_cons. rewrite Index_cons_single.
    rewrite bool_decide_false by congruence. by rewrite IH.
Qed.

Lemma drop_past_separator (c : Z) e t : drop (length e + 1) (e ++ c :: t) = t.
Proof. induction e as [|r e IH]; [done|]. exact IH. Qed.

(** Splitting what [Join] put together gives the pieces back, when no
    piece holds the separator. *)
Lemma Split_Join c ls :
  ls ≠ [] -> Forall (fun piece => c ∉ piece) ls -> Split (Join ls [c]) [c] = ls.
Proof.
  intros Hne Hall. rewrite Split_single.
  induction Hall as [|e es He Hes IH]; [done|]. clear Hne.
  destruct es as [|e' es].
  { cbn [Join]. by rewrite (occurrences_absent _ _ He). }
  rewrite Join_cons_cons. cbn [app].
  rewrite occurrences_app, occurrences_hit, (occurrences_absent _ _ He).
  cbn [Nat.add splitLoop]. rewrite Index_single_app by done.
  rewrite take_app_length. cbn [length]. rewrite drop_past_separator.
  f_equal. by apply IH.
Qed.

Lemma Join_snoc_nil sep ls :
  Join (ls ++ [[]]) sep = concat (map (fun l => l ++ sep) ls) .
Proof.
  induction ls as [|l ls IH]; [done|]. cbn [app map concat].
  rewrite Join_cons by (by destruct ls). rewrite IH.
  destruct ls as [|l' ls]; cbn; by rewrite <- ?app_assoc, ?app_nil_r.
Qed.

Lemma TrimLeftFunc_absent (c : Z) f s : c ∉ s -> c ∉ TrimLeftFunc s f.
Proof.
  induction s as [|r s IH]; [done|]. cbn. intros Hs.
  destruct (f r); [|done]. apply IH. by apply not_elem_of_cons in Hs as [_ ?].
Qed.

Lemma TrimRightFunc_absent (c : Z) f s : c ∉ s -> c ∉ TrimRightFunc s f.
Proof.
  induction s as [|r s IH]; [done|]. cbn.
  intros [Hne Hs]%not_elem_of_cons. specialize (IH Hs).
  destruct (TrimRightFunc s f).
  - destruct (f r); [apply not_elem_of_nil|].
    apply not_elem_of_cons. split; [done | apply not_elem_of_nil].
  - apply not_elem_of_cons. by split.
Qed.

Lemma TrimSpace_absent (c : Z) s : c ∉ s -> c ∉ TrimSpace s.
Proof. intros H. by apply TrimRightFunc_absent, TrimLeftFunc_absent. Qed.

(** ** processValue on whole values *)

Lemma bulletLine_noMarker item : noMarker item -> bulletLine item = item.
Proof.
  unfold noMarker. change (go "-") with [45]. change (go "+") with [43].
  destruct item as [|r rest]; [done|]. rewrite !HasPrefix_cons_single.
  intros [H45%bool_decide_eq_false H43%bool_decide_eq_false]. cbn.
  replace (r =? 45) with false by lia. by replace (r =? 43) with false by lia.
Qed.

Lemma bulletLine_idem item : bulletLine (bulletLine item) = bulletLine item.
Proof.
  destruct item as [|r rest]; [done|]. cbn.
  destruct ((r =? 45) || (r =? 43)) eqn:E; cbn; [done|]. by rewrite E.
Qed.

Lemma bulletLine_absent_newline item : 10 ∉ item -> 10 ∉ bulletLine item.
Proof.
  destruct item as [|r rest]; [done|]. cbn.
  destruct ((r =? 45) || (r =? 43)); [|done].
  intros [_ Hrest]%not_elem_of_cons. apply not_elem_of_cons. by split.
Qed.

Lemma processed_noMarker value :
  Forall noMarker (Split value (go "\n")) -> processed value = value.
Proof.
  intros H. unfold processed.
  replace (map bulletLine (Split value (go "\n"))) with (Split value (go "\n")).
  - apply Split_Join_id.
  - symmetry. rewrite <- (map_id (Split value (go "\n"))) at 2.
    apply map_ext_Forall. eapply Forall_impl; [exact H|].
    intros item. apply bulletLine_noMarker.
Qed.

Lemma processed_idem value : processed (processed value) = processed value.
Proof.
  unfold processed at 1 3. change (go "\n") with [10]. f_equal.
  assert (Hpieces : Forall (fun piece => 10 ∉ piece)
                      (map bulletLine (Split value [10]))).
  { apply Forall_map. eapply Forall_impl; [apply Split_pieces|].
    intros item. apply bulletLine_absent_newline. }
  unfold processed. change (go "\n") with [10]. rewrite Split_Join; [|..|done].
  - rewrite map_map. apply map_ext. intros item. apply bulletLine_idem.
  - rewrite Split_single. intros Hnil%fmap_nil_inv. by apply splitLoop_nonempty in Hnil.
Qed.

(** The value gathered from a run of lines, after [processValue]: every
    line trimmed, with a bullet when it starts with a marker, and ended by a
    newline. *)
Lemma processed_accumulated lines :
  Forall (fun line => 10 ∉ line) lines ->
  processed (accumulated lines)
  = concat (map (fun line => bulletLine (TrimSpace line) ++ go "\n") lines).
Proof.
  intros H. unfold processed, accumulated. change (go "\n") with [10].
  assert (Hacc : concat (map (fun line => TrimSpace line ++ [10]) lines)
                 = Join (map TrimSpace lines ++ [[]]) [10]).
  { by rewrite Join_snoc_nil, map_map. }
  rewrite Hacc, Split_Join.
  - rewrite map_app. cbn [map bulletLine]. by rewrite Join_snoc_nil, !map_map.
  - by destruct (map TrimSpace lines).
  - apply Forall_app. split; [|repeat constructor; apply not_elem_of_nil].
    apply Forall_map. eapply Forall_impl; [exact H|].
    intros line. apply TrimSpace_absent.
Qed.

(** ** Further properties: the scan loop *)

(** X1.  A run of Plain-Text lines leaves the mapping, the prefix and the
    current key as they are, whatever the sanitizer.  With an entry open,
    each line is appended to the value, trimmed and followed by a newline,
    in order; with no entry open the lines are dropped. *)
Theorem plain_run_state (To_LowerCase : rune -> rune)
    (sanitize : gostring -> gostring) (st : ScanState) (lines : list gostring) :
  Forall plainLine lines ->
  exists st',
    scanLines To_LowerCase sanitize st lines = Some st'
    /\ data st' = data st /\ currentPrefix st' = currentPrefix st
    /\ currentKey st' = currentKey st
    /\ currentValue st'
       = if bool_decide (currentKey st ≠ [])
         then currentValue st
              ++ concat (map (fun line => TrimSpace line ++ go "\n") lines)
         else currentValue st.
Proof. apply scanLines_plain_state. Qed.

Lemma plain_run_state_witness :
  exists st',
    scanLines sampleLowerCase (inlineSanitize sampleLowerCase)
      (mkScan ∅ [] (go "notes") (go "a\n") (go "a")) [go "  b  "; go "- c"]
    = Some st'
    /\ data st' = ∅ /\ currentPrefix st' = [] /\ currentKey st' = go "notes"
    /\ currentValue st' = go "a\nb\n- c\n".
Proof.
  apply (plain_run_state sampleLowerCase (inlineSanitize sampleLowerCase)
           (mkScan ∅ [] (go "notes") (go "a\n") (go "a")) [go "  b  "; go "- c"]).
  repeat constructor.
Defined.

(** X2.  A Section-Heading flushes the open entry and closes it: the prefix
    becomes the kebab-cased heading text, and the Plain-Text lines that
    follow the heading never reach the mapping, which stays what the flush
    at the heading made it. *)
Theorem section_heading_closes_entry (To_LowerCase : rune -> rune)
    (sanitize : gostring -> gostring) (st : ScanState) (line : gostring)
    (lines : list gostring) :
  classify (TrimSpace line) = SectionHeading ->
  Forall plainLine lines ->
  exists m st',
    flush st = Some m
    /\ scanLines To_LowerCase sanitize st (line :: lines) = Some st'
    /\ data st' = m
    /\ currentPrefix st' = kebabSection To_LowerCase (TrimSpace line)
    /\ currentKey st' = [] /\ currentValue st' = []
    /\ flush st' = Some m.
Proof.
  intros Hsec Hplain. exists (flushed st).
  cbn [scanLines]. rewrite step_section by done. cbn [mbind option_bind].
  destruct (scanLines_plain_state To_LowerCase sanitize lines
              (mkScan (flushed st) (kebabSection To_LowerCase (TrimSpace line))
                 [] [] (TrimSpace line)) Hplain)
    as (st' & Hscan & Hd & Hp & Hk & Hv).
  cbn in Hd, Hp, Hk, Hv. exists st'.
  split; [apply flush_flushed|]. split; [exact Hscan|].
  repeat split; try done.
  rewrite flush_flushed. unfold flushed. rewrite Hk, Hd.
  by rewrite bool_decide_false by (intros ?; done).
Qed.

Lemma section_heading_closes_entry_witness :
  exists m st',
    flush (mkScan ∅ [] (go "a") (go "x\n") (go "x")) = Some m
    /\ scanLines sampleLowerCase (inlineSanitize sampleLowerCase)
         (mkScan ∅ [] (go "a") (go "x\n") (go "x"))
         [go "## Part Two"; go "lost text"] = Some st'
    /\ data st' = m
    /\ currentPrefix st' = kebabSection sampleLowerCase (TrimSpace (go "## Part Two"))
    /\ currentKey st' = [] /\ currentValue st' = []
    /\ flush st' = Some m.
Proof.
  apply (section_heading_closes_entry sampleLowerCase
           (inlineSanitize sampleLowerCase)
           (mkScan ∅ [] (go "a") (go "x\n") (go "x"))
           (go "## Part Two") [go "lost text"]).
  - reflexivity.
  - repeat constructor.
Defined.

(** X3.  An Entry-Heading whose text sanitizes to the empty key, met while
    no prefix is active, opens no entry: the pending entry is flushed, the
    current key stays empty, and the Plain-Text lines under the heading are
    dropped. *)
Theorem empty_key_heading_opens_nothing (To_LowerCase : rune -> rune)
    (sanitize : gostring -> gostring) (st : ScanState) (line : gostring)
    (lines : list gostring) :
  classify (TrimSpace line) = EntryHeading ->
  currentPrefix st = [] ->
  entryKey To_LowerCase sanitize (TrimPrefix (TrimSpace line) (go "###")) = [] ->
  Forall plainLine lines ->
  exists m st',
    flush st = Some m
    /\ scanLines To_LowerCase sanitize st (line :: lines) = Some st'
    /\ data st' = m /\ currentKey st' = [] /\ currentValue st' = []
    /\ flush st' = Some m.
Proof.
  intros Hentry Hprefix Hkey Hplain. exists (flushed st).
  cbn [scanLines]. rewrite step_entry by done. cbn [mbind option_bind].
  rewrite Hprefix, Hkey. unfold withPrefix at 1.
  rewrite bool_decide_false by (intros ?; done).
  destruct (scanLines_plain_state To_LowerCase sanitize lines
              (mkScan (flushed st) [] [] [] (TrimSpace line)) Hplain)
    as (st' & Hscan & Hd & Hp & Hk & Hv).
  cbn in Hd, Hp, Hk, Hv. exists st'.
  split; [apply flush_flushed|]. split; [exact Hscan|].
  repeat split; try done.
  rewrite flush_flushed. unfold flushed. rewrite Hk, Hd.
  by rewrite bool_decide_false by (intros ?; done).
Qed.

Lemma empty_key_heading_opens_nothing_witness :
  exists m st',
    flush initial = Some m
    /\ scanLines sampleLowerCase (inlineSanitize sampleLowerCase) initial
         [go "### ?!"; go "body text"] = Some st'
    /\ data st' = m /\ currentKey st' = [] /\ currentValue st' = []
    /\ flush st' = Some m.
Proof.
  apply (empty_key_heading_opens_nothing sampleLowerCase
           (inlineSanitize sampleLowerCase) initial (go "### ?!") [go "body text"]).
  - reflexivity.
  - reflexivity.
  - by vm_compute.
  - repeat constructor.
Defined.

(** X4.  The value of an entry.  After an Entry-Heading with a non-empty
    key and a run of Plain-Text lines, the flush writes, under that key, the
    lines each trimmed, given a bullet in place of a leading "-" or "+", and
    ended by a newline, the whole trimmed again; the rest of the mapping is
    what the flush at the heading left. *)
Theorem entry_body_value (To_LowerCase : rune -> rune)
    (sanitize : gostring -> gostring) (st : ScanState) (heading : gostring)
    (lines : list gostring) :
  let key := withPrefix (currentPrefix st)
               (entryKey To_LowerCase sanitize
                  (TrimPrefix (TrimSpace heading) (go "###"))) in
  classify (TrimSpace heading) = EntryHeading ->
  key ≠ [] ->
  Forall plainLine lines ->
  Forall (fun line => 10 ∉ line) lines ->
  exists m st',
    flush st = Some m
    /\ scanLines To_LowerCase sanitize st (heading :: lines) = Some st'
    /\ currentKey st' = key
    /\ flush st'
       = Some (<[key := TrimSpace
                          (concat (map (fun line =>
                                          bulletLine (TrimSpace line) ++ go "\n")
                                       lines))]> m).
Proof.
  intros key Hentry Hkey Hplain Hnl. exists (flushed st).
  cbn [scanLines]. rewrite step_entry by done. cbn [mbind option_bind].
  fold key.
  destruct (scanLines_plain_state To_LowerCase sanitize lines
              (mkScan (flushed st) (currentPrefix st) key [] (TrimSpace heading))
              Hplain)
    as (st' & Hscan & Hd & Hp & Hk & Hv).
  cbn in Hd, Hp, Hk, Hv. rewrite bool_decide_true in Hv by done.
  exists st'. split; [apply flush_flushed|]. split; [exact Hscan|].
  split; [exact Hk|].
  rewrite flush_flushed. unfold flushed. rewrite Hk, Hd, Hv.
  rewrite bool_decide_true by done. cbn [app].
  by rewrite processed_accumulated.
Qed.

Lemma entry_body_value_witness :
  exists m st',
    flush initial = Some m
    /\ scanLines sampleLowerCase (inlineSanitize sampleLowerCase) initial
         [go "### To Do"; go "  - first"; go "+ second  "; go ""] = Some st'
    /\ currentKey st' = go "to-do"
    /\ flush st'
       = Some (<[go "to-do" := bullet ++ go " first\n" ++ bullet ++ go " second"]> m).
Proof.
  apply (entry_body_value sampleLowerCase (inlineSanitize sampleLowerCase)
           initial (go "### To Do") [go "  - first"; go "+ second  "; go ""]).
  - reflexivity.
  - by vm_compute.
  - repeat constructor.
  - apply (bool_decide_unpack _). by vm_compute.
Defined.

(** X5.  Every value of the mapping [parseMarkdown] returns is trimmed:
    [TrimSpace] would leave it as it is.  This holds for the values of
    entries and of definition items, whatever the sanitizer. *)
Theorem mapping_values_trimmed (To_LowerCase : rune -> rune)
    (sanitize : gostring -> gostring) (markdown : gostring) :
  exists m,
    parseMarkdown To_LowerCase sanitize markdown = Some m
    /\ map_Forall (fun _ value => TrimSpace value = value) m.
Proof.
  unfold parseMarkdown.
  destruct (scanLines_total To_LowerCase sanitize (Split markdown (go "\n")) initial)
    as [st Hscan].
  rewrite Hscan. cbn [mbind option_bind]. rewrite flush_flushed.
  exists (flushed st). split; [done|].
  apply flushed_trimmed.
  apply (scanLines_trimmed To_LowerCase sanitize _ _ _ Hscan).
  apply map_Forall_empty.
Qed.

(** X6.  The scan never removes a key.  Whatever lines are scanned from
    whatever state, the keys the mapping held after the first part of the
    lines are still in it after all of them and after the final flush. *)
Theorem scan_keeps_keys (To_LowerCase : rune -> rune)
    (sanitize : gostring -> gostring) (st : ScanState)
    (lines1 lines2 : list gostring) :
  exists st1 st2 m,
    scanLines To_LowerCase sanitize st lines1 = Some st1
    /\ scanLines To_LowerCase sanitize st (lines1 ++ lines2) = Some st2
    /\ flush st2 = Some m
    /\ dom (data st) ⊆ dom (data st1)
    /\ dom (data st1) ⊆ dom (data st2)
    /\ dom (data st2) ⊆ dom m.
Proof.
  destruct (scanLines_total To_LowerCase sanitize lines1 st) as [st1 H1].
  destruct (scanLines_total To_LowerCase sanitize lines2 st1) as [st2 H2].
  exists st1, st2, (flushed st2).
  split; [exact H1|].
  split; [by rewrite scanLines_app, H1|].
  split; [apply flush_flushed|].
  split; [exact (scanLines_dom _ _ _ _ _ H1)|].
  split; [exact (scanLines_dom _ _ _ _ _ H2) | apply flushed_dom].
Qed.

(** ** Further properties: the keys *)

Section KeysWithoutSections.
Variable To_LowerCase : rune -> rune.
Hypothesis lower_not_capital : forall r, 127 < r -> ~ 65 <= To_LowerCase r <= 90.

Local Abbreviation sanitizeT := (inlineSanitize To_LowerCase).

Lemma step_prefix_kept sanitize st line st' :
  classify (TrimSpace line) ≠ SectionHeading ->
  step To_LowerCase sanitize st line = Some st' ->
  currentPrefix st' = currentPrefix st.
Proof.
  intros Hsec.
  destruct (classify_cases (TrimSpace line)) as [H|[[rest H]|[H|H]]].
  - rewrite step_entry by done. by intros [= <-].
  - rewrite (step_definition _ _ _ _ _ H). by intros [= <-].
  - done.
  - rewrite step_plain by done. by intros [= <-].
Qed.

Lemma keyShape_no_prefix key : keyShape [] key -> isKey key = true.
Proof.
  intros (localKey & -> & H). unfold withPrefix.
  by rewrite bool_decide_false by (intros ?; done).
Qed.

Lemma scanLines_clean_keys lines : forall st st',
  Forall (fun line => classify (TrimSpace line) ≠ SectionHeading) lines ->
  currentPrefix st = [] -> entryShape st ->
  (forall key, is_Some (data st !! key) -> isKey key = true) ->
  scanLines To_LowerCase sanitizeT st lines = Some st' ->
  currentPrefix st' = [] /\ entryShape st'
  /\ (forall key, is_Some (data st' !! key) -> isKey key = true).
Proof.
  induction lines as [|line lines IH]; intros st st' Hlines Hprefix Hshape Hkeys;
    cbn [scanLines].
  { by intros [= <-]. }
  apply Forall_cons in Hlines as [Hline Hlines].
  destruct (step_total To_LowerCase sanitizeT st line) as [st1 Hstep].
  rewrite Hstep. cbn [mbind option_bind].
  destruct (step_written_key To_LowerCase lower_not_capital _ _ _ Hshape Hstep)
    as [Hshape1 Hdata].
  pose proof (step_prefix_kept _ _ _ _ Hline Hstep) as Hprefix1.
  apply (IH st1 st' Hlines); [congruence | done |].
  intros key Hsome.
  destruct Hdata as [Heq|(key' & value & Heq & Hk)];
    rewrite Heq in Hsome; [by apply Hkeys|].
  destruct (decide (key' = key)) as [<-|Hne].
  - apply keyShape_no_prefix. by rewrite <- Hprefix.
  - rewrite lookup_insert_ne in Hsome by done. by apply Hkeys.
Qed.
End KeysWithoutSections.

(** X7.  A round of the loop writes at most one entry, and the key it
    writes under is the prefix active in that round, a hyphen, and a local
    key of lower-case letters, digits and hyphens (the local key alone when
    no prefix is active).  The current key has that same shape in every
    state the scan reaches: it has it at the start and each round keeps
    it. *)
Theorem round_writes_prefixed_key (To_LowerCase : rune -> rune)
    (lower_not_capital : forall r, 127 < r -> ~ 65 <= To_LowerCase r <= 90)
    (st : ScanState) (line : gostring) :
  entryShape st ->
  entryShape initial
  /\ exists st',
       step To_LowerCase (inlineSanitize To_LowerCase) st line = Some st'
       /\ entryShape st'
       /\ (data st' = data st
           \/ exists localKey value,
                isKey localKey = true
                /\ data st'
                   = <[withPrefix (currentPrefix st) localKey := value]> (data st)).
Proof.
  intros Hshape. split; [by left|].
  destruct (step_total To_LowerCase (inlineSanitize To_LowerCase) st line)
    as [st' Hstep].
  exists st'. split; [exact Hstep|].
  destruct (step_written_key To_LowerCase lower_not_capital _ _ _ Hshape Hstep)
    as [Hshape' [Heq|(key & value & Heq & localKey & -> & Hkey)]].
  - split; [done | by left].
  - split; [done|]. right. by exists localKey, value.
Qed.

Lemma sampleLowerCase_not_capital : forall r, 127 < r -> ~ 65 <= sampleLowerCase r <= 90.
Proof. intros r Hr. unfold sampleLowerCase. repeat case_match; lia. Qed.

Lemma round_writes_prefixed_key_witness :
  entryShape initial
  /\ exists st',
       step sampleLowerCase (inlineSanitize sampleLowerCase)
         (mkScan ∅ (go "a.b") [] [] (go "Full Name")) (go ": Ada") = Some st'
       /\ entryShape st'
       /\ (data st' = ∅
           \/ exists localKey value,
                isKey localKey = true
                /\ data st' = <[withPrefix (go "a.b") localKey := value]> ∅).
Proof.
  apply (round_writes_prefixed_key sampleLowerCase sampleLowerCase_not_capital
           (mkScan ∅ (go "a.b") [] [] (go "Full Name")) (go ": Ada")).
  by left.
Defined.

(** X8.  A document without Section-Headings gets clean keys: every key of
    the mapping holds lower-case ASCII letters, digits and hyphens only. *)
Theorem keys_clean_without_sections (To_LowerCase : rune -> rune)
    (lower_not_capital : forall r, 127 < r -> ~ 65 <= To_LowerCase r <= 90)
    (markdown : gostring) :
  Forall (fun line => classify (TrimSpace line) ≠ SectionHeading)
    (Split markdown (go "\n")) ->
  exists m,
    parseMarkdown To_LowerCase (inlineSanitize To_LowerCase) markdown = Some m
    /\ forall key, is_Some (m !! key) -> isKey key = true.
Proof.
  intros Hlines. unfold parseMarkdown.
  destruct (scanLines_total To_LowerCase (inlineSanitize To_LowerCase)
              (Split markdown (go "\n")) initial) as [st Hscan].
  rewrite Hscan. cbn [mbind option_bind]. rewrite flush_flushed.
  exists (flushed st). split; [done|].
  assert (Hempty : forall key, is_Some (data initial !! key) -> isKey key = true).
  { intros k Hk. cbn in Hk. rewrite lookup_empty in Hk. by destruct Hk. }
  assert (Hinit : entryShape initial) by (by left).
  destruct (scanLines_clean_keys To_LowerCase lower_not_capital _ initial st Hlines
              eq_refl Hinit Hempty Hscan) as (Hprefix & Hshape & Hkeys).
  intros key Hsome.
  destruct (flushed_writes st Hshape) as [Heq|(key' & value & Heq & Hk)];
    rewrite Heq in Hsome; [by apply Hkeys|].
  destruct (decide (key' = key)) as [<-|Hne].
  - apply keyShape_no_prefix. by rewrite <- Hprefix.
  - rewrite lookup_insert_ne in Hsome by done. by apply Hkeys.
Qed.

Lemma keys_clean_without_sections_witness :
  exists m,
    parseMarkdown sampleLowerCase (inlineSanitize sampleLowerCase)
      (go "### Field, A!\ntext\nFull Name (legal)\n: Ada\n") = Some m
    /\ forall key, is_Some (m !! key) -> isKey key = true.
Proof.
  apply (keys_clean_without_sections sampleLowerCase sampleLowerCase_not_capital).
  match goal with
  | |- Forall _ ?lines => let l := eval vm_compute in lines in change lines with l
  end.
  repeat (apply Forall_cons; split; [by vm_compute|]). by apply Forall_nil.
Defined.

(** X9.  The local key of an Entry-Heading holds nothing but lower-case
    ASCII letters, digits and hyphens, for every heading text and every
    content of the lower-case table. *)
Theorem entry_key_alphabet (To_LowerCase : rune -> rune) (heading : gostring) :
  Forall (fun r => 97 <= r <= 122 \/ 48 <= r <= 57 \/ r = 45)
    (entryKey To_LowerCase (inlineSanitize To_LowerCase) heading).
Proof.
  pose proof (entryKey_isKey To_LowerCase heading) as H.
  apply isKey_Forall in H. eapply Forall_impl; [exact H|].
  intros r Hr. cbn beta in Hr. unfold isKeyRune in Hr.
  destruct (Z.leb_spec 97 r), (Z.leb_spec r 122), (Z.leb_spec 48 r),
    (Z.leb_spec r 57), (Z.eqb_spec r 45); cbn in Hr; try done; lia.
Qed.

(** ** Further properties: the revisions side by side *)

Lemma splitLoop_Forall (P : Z -> Prop) sep n : forall s,
  Forall P s -> Forall (Forall P) (splitLoop n s sep).
Proof.
  induction n as [|n IH]; intros s Hs; cbn [splitLoop]; [by repeat constructor|].
  destruct (Index s sep); [|by repeat constructor].
  constructor; [by apply Forall_take | by apply IH, Forall_drop].
Qed.

Lemma Split_newline_Forall (P : Z -> Prop) s :
  Forall P s -> Forall (Forall P) (Split s (go "\n")).
Proof. change (go "\n") with [10]. rewrite Split_single. apply splitLoop_Forall. Qed.

Lemma TrimPrefix_Forall (P : Z -> Prop) s p : Forall P s -> Forall P (TrimPrefix s p).
Proof. intros H. unfold TrimPrefix. case_match; [by apply Forall_drop | done]. Qed.

Section RevisionsScan.
Variable To_LowerCase : rune -> rune.
Variable Fold : gostring -> gostring.
Variables IsLetter IsNumber : rune -> bool.

Hypothesis Fold_ascii : forall s, asciiOnly s -> Fold s = map lowerASCII s.
Hypothesis IsLetter_ascii : forall r, 0 <= r < 128 ->
  IsLetter r = ((97 <=? r) && (r <=? 122)) || ((65 <=? r) && (r <=? 90)).
Hypothesis IsNumber_ascii : forall r, 0 <= r < 128 ->
  IsNumber r = (48 <=? r) && (r <=? 57).

Local Abbreviation sanitizeK := (sanitizeKey Fold IsLetter IsNumber).
Local Abbreviation sanitizeT := (inlineSanitize To_LowerCase).

Lemma step_revisions st line :
  asciiOnly line -> asciiOnly (previousLine st) ->
  step To_LowerCase sanitizeK st line = step To_LowerCase sanitizeT st line.
Proof.
  intros Hline Hprev.
  destruct (classify_cases (TrimSpace line)) as [H|[[rest H]|[H|H]]].
  - rewrite !step_entry by done.
    rewrite (entryKey_revisions_ascii To_LowerCase Fold IsLetter IsNumber
               Fold_ascii IsLetter_ascii IsNumber_ascii); [done|].
    by apply TrimPrefix_Forall, TrimSpace_Forall.
  - rewrite !(step_definition _ _ _ _ _ H).
    by rewrite (sanitizeKey_ascii To_LowerCase Fold IsLetter IsNumber
                  Fold_ascii IsLetter_ascii IsNumber_ascii).
  - by rewrite !step_section.
  - by rewrite !step_plain.
Qed.

Lemma step_previousLine sanitize st line st' :
  step To_LowerCase sanitize st line = Some st' -> previousLine st' = TrimSpace line.
Proof.
  destruct (classify_cases (TrimSpace line)) as [H|[[rest H]|[H|H]]].
  - rewrite step_entry by done. by intros [= <-].
  - rewrite (step_definition _ _ _ _ _ H). by intros [= <-].
  - rewrite step_section by done. by intros [= <-].
  - rewrite step_plain by done. by intros [= <-].
Qed.

Lemma scanLines_revisions lines : forall st,
  Forall asciiOnly lines -> asciiOnly (previousLine st) ->
  scanLines To_LowerCase sanitizeK st lines = scanLines To_LowerCase sanitizeT st lines.
Proof.
  induction lines as [|line lines IH]; intros st Hlines Hprev; [done|].
  apply Forall_cons in Hlines as [Hline Hlines]. cbn [scanLines].
  rewrite step_revisions by done.
  destruct (step To_LowerCase sanitizeT st line) as [st1|] eqn:Hstep; [|done].
  cbn [mbind option_bind]. apply IH; [done|].
  rewrite (step_previousLine _ _ _ _ Hstep). by apply TrimSpace_Forall.
Qed.

Lemma parseMarkdown_revisions markdown :
  asciiOnly markdown ->
  parseMarkdown To_LowerCase sanitizeK markdown
  = parseMarkdown To_LowerCase sanitizeT markdown.
Proof.
  intros H. unfold parseMarkdown.
  rewrite scanLines_revisions; [done | | constructor].
  by apply Split_newline_Forall.
Qed.
End RevisionsScan.

(** X10.  On a document of ASCII characters the first two revisions of
    src/unnamed/part_000 (lines 1-215 and 216-399), which call [sanitizeKey]
    in the same loop and have the same [processValue], return the very
    mapping src/markdowntoword.go returns, given that [cases.Fold]
    lower-cases ASCII text and that [unicode.IsLetter] and [unicode.IsNumber]
    pick the ASCII letters and digits among the ASCII characters.  The third
    revision writes another glyph in its [processValue] and is left out. *)
Theorem revisions_agree_on_ascii (To_LowerCase : rune -> rune)
    (Fold : gostring -> gostring) (IsLetter IsNumber : rune -> bool)
    (Fold_ascii : forall s, asciiOnly s -> Fold s = map lowerASCII s)
    (IsLetter_ascii : forall r, 0 <= r < 128 ->
       IsLetter r = ((97 <=? r) && (r <=? 122)) || ((65 <=? r) && (r <=? 90)))
    (IsNumber_ascii : forall r, 0 <= r < 128 ->
       IsNumber r = (48 <=? r) && (r <=? 57))
    (markdown : gostring) :
  asciiOnly markdown ->
  parseMarkdown To_LowerCase (sanitizeKey Fold IsLetter IsNumber) markdown
  = parseMarkdown To_LowerCase (inlineSanitize To_LowerCase) markdown.
Proof. by apply parseMarkdown_revisions. Qed.

Lemma sampleFold_ascii s : asciiOnly s -> sampleFold s = map lowerASCII s.
Proof.
  intros Hs. unfold sampleFold.
  induction Hs as [|r s Hr Hs IH]; [done|]. cbn beta in Hr.
  rewrite bind_cons, IH. unfold sampleFoldRune.
  replace (r =? 223) with false by lia. replace (r =? 181) with false by lia.
  replace (r =? 304) with false by lia. cbn [app map]. f_equal.
  unfold unicode_ToLower, lowerASCII, isUpperASCII.
  by replace (r <=? 127) with true by lia.
Qed.

Lemma sampleIsLetter_ascii r :
  0 <= r < 128 ->
  sampleIsLetter r = ((97 <=? r) && (r <=? 122)) || ((65 <=? r) && (r <=? 90)).
Proof.
  intros Hr. unfold sampleIsLetter.
  replace ((192 <=? r) && (r <=? 255) && negb (r =? 215) && negb (r =? 247))
    with false by lia.
  by rewrite orb_false_r.
Qed.

Lemma sampleIsNumber_ascii r :
  0 <= r < 128 -> sampleIsNumber r = (48 <=? r) && (r <=? 57).
Proof.
  intros Hr. unfold sampleIsNumber.
  replace (r =? 178) with false by lia. replace (r =? 179) with false by lia.
  replace (r =? 185) with false by lia. by rewrite !orb_false_r.
Qed.

Lemma revisions_agree_on_ascii_witness :
  parseMarkdown sampleLowerCase
    (sanitizeKey sampleFold sampleIsLetter sampleIsNumber)
    (go "## Intro\n### Field, A!\nHello\nLabel Name\n: some value\n")
  = parseMarkdown sampleLowerCase (inlineSanitize sampleLowerCase)
      (go "## Intro\n### Field, A!\nHello\nLabel Name\n: some value\n").
Proof.
  apply (revisions_agree_on_ascii sampleLowerCase sampleFold sampleIsLetter
           sampleIsNumber sampleFold_ascii sampleIsLetter_ascii
           sampleIsNumber_ascii).
  unfold asciiOnly. apply (bool_decide_unpack _). by vm_compute.
Defined.

(** ** Further properties: processValue *)

(** X11.  [processValue] returns a value none of whose lines starts with
    "-" or "+" exactly as it is. *)
Theorem processValue_identity (value : gostring) :
  Forall noMarker (Split value (go "\n")) -> processValue value = Some value.
Proof.
  intros H. rewrite processValue_processed. f_equal. by apply processed_noMarker.
Qed.

Lemma processValue_identity_witness :
  processValue (go "Hello\n  - indented dash\n\nlast - line") 
  = Some (go "Hello\n  - indented dash\n\nlast - line").
Proof.
  apply processValue_identity.
  match goal with
  | |- Forall _ ?lines => let l := eval vm_compute in lines in change lines with l
  end.
  repeat (apply Forall_cons; split; [by split|]). by apply Forall_nil.
Defined.

(** X12.  [processValue] is idempotent: run on its own result it changes
    nothing more, since a bullet is not a marker. *)
Theorem processValue_idempotent (value : gostring) :
  processValue value ≫= processValue = processValue value.
Proof.
  rewrite processValue_processed. cbn [mbind option_bind].
  rewrite processValue_processed. f_equal. apply processed_idem.
Qed.

(** ** Further properties: emphasis delimiters *)

Lemma Index_Some s p : forall i,
  Index s p = Some i -> s = take i s ++ p ++ drop (i + length p) s.
Proof.
  induction s as [|r s IH]; intros i; cbn [Index].
  - destruct (HasPrefix [] p) eqn:E; [|done]. intros [= <-].
    by apply HasPrefix_inv in E.
  - destruct (HasPrefix (r :: s) p) eqn:E.
    + intros [= <-]. by apply HasPrefix_inv in E.
    + destruct (Index s p) as [j|] eqn:Ej; [|done]. intros [= <-].
      cbn [take drop Nat.add app]. f_equal. by apply IH.
Qed.

Lemma Index_head_absent (c : Z) p s : c ∉ s -> Index s (c :: p) = None.
Proof.
  induction s as [|r s IH]; [done|].
  intros [Hne Hs]%not_elem_of_cons. cbn [Index].
  destruct (HasPrefix (r :: s) (c :: p)) eqn:E.
  - apply HasPrefix_inv in E. cbn in E. congruence.
  - by rewrite IH.
Qed.

Lemma Count_head_absent (c : Z) p s : c ∉ s -> Count s (c :: p) = O.
Proof.
  intros H. cbn [Count]. destruct (length s); [done|]. cbn [countLoop].
  by rewrite Index_head_absent.
Qed.

Lemma deleteRune_app c s t : deleteRune c (s ++ t) = deleteRune c s ++ deleteRune c t.
Proof. apply filter_app. Qed.

Lemma deleteRune_absent c s : c ∉ s -> deleteRune c s = s.
Proof.
  unfold deleteRune. induction s as [|r s IH]; [done|].
  intros [Hne Hs]%not_elem_of_cons.
  rewrite filter_cons_True by congruence. by rewrite IH.
Qed.

Lemma deleteRune_gone c s : c ∉ deleteRune c s.
Proof. unfold deleteRune. intros [H _]%list_elem_of_filter. by apply H. Qed.

Lemma substRune_delete c s : substRune c [] s = deleteRune c s.
Proof.
  induction s as [|r s IH]; [done|]. destruct (decide (r = c)) as [->|Hrc].
  - rewrite substRune_hit. cbn [app]. unfold deleteRune.
    rewrite filter_cons_False by (intros H; by apply H). exact IH.
  - unfold substRune, deleteRune in *.
    rewrite bind_cons, bool_decide_false by done.
    rewrite filter_cons_True by done. cbn [app]. by rewrite IH.
Qed.

(** Taking out pairs of asterisks takes out asterisks only. *)
Lemma replaceLoop_pairs n : forall s,
  deleteRune 42 (replaceLoop n s [42; 42] []) = deleteRune 42 s.
Proof.
  induction n as [|n IH]; intros s; [done|]. cbn [replaceLoop].
  destruct (Index s [42; 42]) as [j|] eqn:E; [|done].
  rewrite (Index_Some _ _ _ E) at 3.
  rewrite !deleteRune_app, IH. by f_equal.
Qed.

Lemma ReplaceAll_pairs s :
  deleteRune 42 (ReplaceAll s (go "**") (go "")) = deleteRune 42 s.
Proof.
  change (go "**") with [42; 42]. change (go "") with (@nil Z).
  unfold ReplaceAll, Replace. rewrite bool_decide_false by done.
  cbn [orb Z.eqb]. destruct (Nat.eqb (Count s [42; 42]) 0); [done|].
  cbn [Z.ltb Z.compare orb]. apply replaceLoop_pairs.
Qed.

Lemma cleanValue_deleteRune value : cleanValue value = deleteRune 42 value.
Proof.
  unfold cleanValue. rewrite <- ReplaceAll_pairs.
  change (go "*") with [42]. change (go "") with (@nil Z).
  rewrite ReplaceAll_single by done. apply substRune_delete.
Qed.

(** X13.  [cleanValue] deletes the asterisks and nothing else: its result
    is the value with every "*" taken out, the other characters in their
    order.  So it is idempotent and no asterisk is left. *)
Theorem cleanValue_deletes_asterisks (value : gostring) :
  cleanValue value = filter (fun r => r ≠ 42) value
  /\ cleanValue (cleanValue value) = cleanValue value
  /\ 42 ∉ cleanValue value.
Proof.
  split; [apply cleanValue_deleteRune|].
  rewrite !cleanValue_deleteRune. split; [|apply deleteRune_gone].
  apply deleteRune_absent, deleteRune_gone.
Qed.

Lemma styleOf_Text value : Text (styleOf value) = deleteRune 42 value.
Proof. exact (cleanValue_deleteRune value). Qed.

(** X14.  The style the third revision gives a value: the text is the value
    with every "*" taken out; a value is never both bold and italic; and a
    value without an asterisk is handed over as it is, neither bold nor
    italic. *)
Theorem style_flags (value : gostring) :
  Text (styleOf value) = filter (fun r => r ≠ 42) value
  /\ Bold (styleOf value) && Italic (styleOf value) = false
  /\ (42 ∉ value -> styleOf value = mkStyle value false false).
Proof.
  split; [apply styleOf_Text|]. split.
  - cbn [styleOf Bold Italic].
    destruct (Count value (go "**")) as [|[|n]]; cbn; [done|done|].
    by rewrite andb_false_r.
  - intros H. pose proof (styleOf_Text value) as HT.
    rewrite (deleteRune_absent _ _ H) in HT.
    unfold styleOf in *. cbn [Text] in HT. rewrite HT.
    change (go "**") with [42; 42]. change (go "*") with [42].
    by rewrite Count_head_absent, Count_head_absent.
Qed.

Lemma style_flags_witness :
  styleOf (go "plain text, no emphasis")
  = mkStyle (go "plain text, no emphasis") false false.
Proof.
  apply (proj2 (proj2 (style_flags (go "plain text, no emphasis")))).
  apply (bool_decide_unpack _). by vm_compute.
Defined.

(** X15.  Of the two values the third revision stores under each key the
    first is overwritten: the mapping handed to the filler has the keys of
    the extractor's mapping, each with the style [styleOf] of its value. *)
Theorem styled_map_lookup (data : gmap gostring gostring) (key : gostring) :
  replaceMapStyled data !! key = styleOf <$> data !! key.
Proof.
  rewrite <- lookup_fmap. f_equal. unfold replaceMapStyled.
  apply (map_fold_weak_ind (fun r m => r = styleOf <$> m)); [by rewrite fmap_empty|].
  intros i x m r Hi ->. cbn zeta. by rewrite insert_insert_eq, fmap_insert.
Qed.

(** ** Further properties: replaceMarkdownFormatting *)

Lemma styledLoop_app parts : forall i styledParts,
  styledLoop i parts styledParts = styledParts ++ parts.
Proof.
  induction parts as [|part parts IH]; intros i styledParts; cbn [styledLoop].
  - by rewrite app_nil_r.
  - destruct (i mod 2 =? 1)%nat; rewrite IH; by rewrite <- app_assoc.
Qed.

Lemma Join_empty_sep ls : Join ls [] = concat ls.
Proof.
  induction ls as [|l ls IH]; [done|]. destruct ls as [|l' ls].
  - cbn. by rewrite app_nil_r.
  - rewrite Join_cons_cons, IH. done.
Qed.

Lemma splitLoop_replaceLoop sep n : forall s,
  concat (splitLoop n s sep) = replaceLoop n s sep [].
Proof.
  induction n as [|n IH]; intros s; cbn [splitLoop replaceLoop].
  - cbn. apply app_nil_r.
  - destruct (Index s sep); cbn [concat]; [by rewrite IH | apply app_nil_r].
Qed.

Lemma countLoop_le fuel : forall s sep, (countLoop fuel s sep <= fuel)%nat.
Proof.
  induction fuel as [|fuel IH]; intros s sep; cbn [countLoop]; [done|].
  destruct (Index s sep); [|lia]. specialize (IH (drop (n + length sep) s) sep). lia.
Qed.

Lemma explode_concat s : concat (explode s (length s)) = s.
Proof.
  induction s as [|r s IH]; [done|]. cbn [length explode].
  destruct s as [|r' s]; [done|].
  cbn [length] in *. cbn [concat app]. by rewrite IH.
Qed.

(** X16.  [replaceMarkdownFormatting] does the same in both branches of its
    loop: for every value, delimiter and style name it returns
    [strings.ReplaceAll(value, delimiter, "")], the value with the delimiter
    taken out and no styling. *)
Theorem replaceMarkdownFormatting_is_ReplaceAll (value delimiter style : gostring) :
  replaceMarkdownFormatting value delimiter style
  = ReplaceAll value delimiter (go "").
Proof.
  unfold replaceMarkdownFormatting. rewrite styledLoop_app. cbn [app].
  change (go "") with (@nil Z). rewrite Join_empty_sep.
  unfold Split, genSplit, ReplaceAll, Replace. cbn [Z.eqb Z.ltb Z.compare orb].
  destruct delimiter as [|d ds].
  - rewrite bool_decide_true by done. apply explode_concat.
  - rewrite bool_decide_false by done. rewrite splitLoop_replaceLoop.
    assert (Hle : (Count value (d :: ds) <= length value)%nat) by apply countLoop_le.
    replace (Nat.pred (Nat.min (S (Count value (d :: ds))) (S (length value))))
      with (Count value (d :: ds)) by lia.
    by destruct (Count value (d :: ds)).
Qed.

(** ** Further properties: main and the default output path *)

Lemma extLoop_spec path : forall i,
  (i <= length path)%nat ->
  extLoop i path = []
  \/ exists j, (j < i)%nat /\ extLoop i path = drop j path.
Proof.
  induction i as [|i IH]; intros Hi; [by left|]. cbn [extLoop].
  destruct (path !! i) as [c|]; [|by left].
  destruct (c =? 47); [by left|].
  destruct (c =? 46); [right; exists i; split; [lia | done]|].
  destruct (IH ltac:(lia)) as [->|(j & Hj & ->)]; [by left|].
  right. exists j. split; [lia | done].
Qed.

Lemma HasSuffix_drop j s : (j <= length s)%nat -> HasSuffix s (drop j s) = true.
Proof.
  intros Hj. unfold HasSuffix. rewrite length_drop.
  rewrite bool_decide_true by lia.
  replace (length s - (length s - j))%nat with j by lia.
  by rewrite bool_decide_true.
Qed.

Lemma TrimSuffix_drop j s : (j <= length s)%nat -> TrimSuffix s (drop j s) = take j s.
Proof.
  intros Hj. unfold TrimSuffix. rewrite HasSuffix_drop by done.
  rewrite length_drop. f_equal. lia.
Qed.

Lemma TrimSuffix_nil s : TrimSuffix s [] = s.
Proof.
  unfold TrimSuffix, HasSuffix. cbn [length]. rewrite Nat.sub_0_r, drop_all.
  rewrite bool_decide_true by lia. rewrite bool_decide_true by done.
  apply take_ge. lia.
Qed.

(** A path is its stem followed by its extension. *)
Lemma Ext_suffix path : TrimSuffix path (Ext path) ++ Ext path = path.
Proof.
  unfold Ext. destruct (extLoop_spec path (length path)) as [->|(j & Hj & ->)]; [done|..].
  - by rewrite TrimSuffix_nil, app_nil_r.
  - rewrite TrimSuffix_drop by lia. apply take_drop.
Qed.

Lemma Ext_docx stem : Ext (stem ++ go ".docx") = go ".docx".
Proof.
  change (go ".docx") with [46; 100; 111; 99; 120]. unfold Ext.
  rewrite length_app. cbn [length].
  replace (length stem + 5)%nat with (S (S (S (S (S (length stem)))))) by lia.
  cbn [extLoop].
  rewrite (lookup_app_r stem) by lia.
  replace (S (S (S (S (length stem)))) - length stem)%nat with 4%nat by lia.
  cbn [lookup list_lookup Z.eqb Pos.eqb].
  rewrite (lookup_app_r stem) by lia.
  replace (S (S (S (length stem))) - length stem)%nat with 3%nat by lia.
  cbn [lookup list_lookup Z.eqb Pos.eqb].
  rewrite (lookup_app_r stem) by lia.
  replace (S (S (length stem)) - length stem)%nat with 2%nat by lia.
  cbn [lookup list_lookup Z.eqb Pos.eqb].
  rewrite (lookup_app_r stem) by lia.
  replace (S (length stem) - length stem)%nat with 1%nat by lia.
  cbn [lookup list_lookup Z.eqb Pos.eqb].
  rewrite (lookup_app_r stem) by lia.
  replace (length stem - length stem)%nat with 0%nat by lia.
  cbn [lookup list_lookup Z.eqb Pos.eqb].
  apply drop_app_length.
Qed.

(** X17.  The default output path is the markdown path with its extension
    replaced: the markdown path is a stem followed by [filepath.Ext] of it,
    the default output is that stem followed by ".docx", and ".docx" is the
    extension [filepath.Ext] finds in it. *)
Theorem default_output_path (markdown : gostring) :
  let stem := TrimSuffix markdown (Ext markdown) in
  markdown = stem ++ Ext markdown
  /\ defaultOutput markdown = stem ++ go ".docx"
  /\ Ext (defaultOutput markdown) = go ".docx".
Proof.
  intros stem. split; [symmetry; apply Ext_suffix|].
  split; [done | apply Ext_docx].
Qed.



(** X19.  [main] goes on to convert only with a markdown path and a template
    path that are not empty, and hands them on as given; the output path it
    hands on is never empty: it is the output flag when that is set, and the
    default output path otherwise.  With an empty markdown or template
    path it only prints a message. *)
Theorem main_converts (flags : Flags) (markdown template output : gostring) :
  main flags = Convert markdown template output ->
  markdown = markdownFile flags /\ template = templateFile flags
  /\ markdown ≠ [] /\ template ≠ [] /\ output ≠ []
  /\ output = (if bool_decide (outputFile flags = [])
               then defaultOutput markdown else outputFile flags).
Proof.
  unfold main. case_bool_decide as Hmd; [done|].
  case_bool_decide as Htpl; [done|]. intros [= <- <- <-].
  repeat split; try done.
  case_bool_decide as Hout; [|done].
  unfold defaultOutput. change (go ".docx") with [46; 100; 111; 99; 120].
  by intros [_ ?]%app_eq_nil.
Qed.

Lemma main_converts_witness :
  go "docs/spec.v2.md" = markdownFile (mkFlags (go "docs/spec.v2.md") (go "t.docx") [])
  /\ go "t.docx" = templateFile (mkFlags (go "docs/spec.v2.md") (go "t.docx") [])
  /\ go "docs/spec.v2.md" ≠ [] /\ go "t.docx" ≠ [] /\ go "docs/spec.v2.docx" ≠ []
  /\ go "docs/spec.v2.docx"
     = (if bool_decide (outputFile (mkFlags (go "docs/spec.v2.md") (go "t.docx") []) = [])
        then defaultOutput (go "docs/spec.v2.md")
        else outputFile (mkFlags (go "docs/spec.v2.md") (go "t.docx") [])).
Proof.
  apply (main_converts (mkFlags (go "docs/spec.v2.md") (go "t.docx") [])).
  by vm_compute.
Defined.

(** ** Further properties: labels and line ends *)

(** X20.  The label of a Definition-Entry is the line before it, whatever
    kind of line that is.  For every two lines in a row of which the second,
    trimmed, starts with ":", the second round writes the trimmed text after
    the colon under the key made from the first line, trimmed, sanitized and
    with its spaces and underscores turned into hyphens, behind the prefix
    left by the first round; it leaves the Current Entry of the first round
    as it is. *)
Theorem label_is_previous_line (To_LowerCase : rune -> rune)
    (sanitize : gostring -> gostring) (st : ScanState)
    (line1 line2 rest : gostring) :
  TrimSpace line2 = go ":" ++ rest ->
  exists st1 st2,
    step To_LowerCase sanitize st line1 = Some st1
    /\ step To_LowerCase sanitize st1 line2 = Some st2
    /\ data st2
       = <[withPrefix (currentPrefix st1)
             (kebabDefinition (sanitize (TrimSpace line1)))
           := TrimSpace rest]> (data st1)
    /\ currentPrefix st2 = currentPrefix st1
    /\ currentKey st2 = currentKey st1
    /\ currentValue st2 = currentValue st1.
Proof.
  intros H. change (go ":" ++ rest) with (58 :: rest) in H.
  destruct (step_total To_LowerCase sanitize st line1) as [st1 Hstep1].
  exists st1. eexists. split; [exact Hstep1|].
  rewrite (step_definition _ _ _ _ _ H).
  rewrite (step_previousLine _ _ _ _ _ Hstep1).
  by repeat split.
Qed.

Lemma label_is_previous_line_witness :
  exists st1 st2,
    step sampleLowerCase (inlineSanitize sampleLowerCase)
      (mkScan ∅ (go "intro") (go "intro-notes") [] (go "### Notes"))
      (go "  Label Name ") = Some st1
    /\ step sampleLowerCase (inlineSanitize sampleLowerCase) st1 (go ": some value")
       = Some st2
    /\ data st2
       = <[withPrefix (currentPrefix st1)
             (kebabDefinition (inlineSanitize sampleLowerCase
                                 (TrimSpace (go "  Label Name "))))
           := TrimSpace (go " some value")]> (data st1)
    /\ currentPrefix st2 = currentPrefix st1
    /\ currentKey st2 = currentKey st1
    /\ currentValue st2 = currentValue st1.
Proof.
  apply (label_is_previous_line sampleLowerCase (inlineSanitize sampleLowerCase)
           (mkScan ∅ (go "intro") (go "intro-notes") [] (go "### Notes"))
           (go "  Label Name ") (go ": some value") (go " some value")).
  reflexivity.
Defined.

Lemma TrimRightFunc_snoc f r s :
  f r = true -> TrimRightFunc (s ++ [r]) f = TrimRightFunc s f.
Proof.
  intros Hr. induction s as [|a s IH]; cbn [app TrimRightFunc].
  - by rewrite Hr.
  - by rewrite IH.
Qed.

Lemma TrimFunc_snoc f r s : f r = true -> TrimFunc (s ++ [r]) f = TrimFunc s f.
Proof.
  intros Hr. unfold TrimFunc. induction s as [|a s IH]; cbn [app TrimLeftFunc].
  - by rewrite Hr.
  - destruct (f a); [exact IH|].
    exact (TrimRightFunc_snoc f r (a :: s) Hr).
Qed.

(** A carriage return at the end of a line is trimmed away with the rest. *)
Lemma TrimSpace_carriage_return s : TrimSpace (s ++ [13]) = TrimSpace s.
Proof. by apply TrimFunc_snoc. Qed.

Lemma step_trimmed_line To_LowerCase sanitize st line line' :
  TrimSpace line = TrimSpace line' ->
  step To_LowerCase sanitize st line = step To_LowerCase sanitize st line'.
Proof. intros H. unfold step. by rewrite H. Qed.

Lemma scanLines_trimmed_lines To_LowerCase sanitize lines lines' : forall st,
  Forall2 (fun line line' => TrimSpace line = TrimSpace line') lines lines' ->
  scanLines To_LowerCase sanitize st lines = scanLines To_LowerCase sanitize st lines'.
Proof.
  intros st H. revert st.
  induction H as [|line line' lines lines' Hline Hlines IH]; intros st; [done|].
  cbn [scanLines]. rewrite (step_trimmed_line _ _ _ _ _ Hline).
  destruct (step To_LowerCase sanitize st line'); [|done]. apply IH.
Qed.

Lemma Join_snoc sep ls last :
  Join (ls ++ [last]) sep = concat (map (fun l => l ++ sep) ls) ++ last.
Proof.
  induction ls as [|l ls IH]; [done|]. cbn [app map concat].
  rewrite Join_cons by (by destruct ls). rewrite IH. by rewrite <- !app_assoc.
Qed.

Lemma parseMarkdown_trimmed_lines To_LowerCase sanitize lines lines' :
  Forall2 (fun line line' => TrimSpace line = TrimSpace line') lines lines' ->
  lines ≠ [] ->
  Forall (fun line => 10 ∉ line) lines -> Forall (fun line => 10 ∉ line) lines' ->
  parseMarkdown To_LowerCase sanitize (Join lines (go "\n"))
  = parseMarkdown To_LowerCase sanitize (Join lines' (go "\n")).
Proof.
  intros H2 Hne Hnl Hnl'. unfold parseMarkdown. change (go "\n") with [10].
  rewrite !Split_Join; [|by destruct H2|done|done|done].
  by rewrite (scanLines_trimmed_lines To_LowerCase sanitize lines lines').
Qed.

Lemma carriage_return_absent_newline line : 10 ∉ line -> 10 ∉ line ++ [13].
Proof.
  intros Hline. rewrite elem_of_app. intros [?|Hin]; [done|].
  by apply list_elem_of_singleton in Hin.
Qed.

(** X21.  Line ends do not matter.  A document whose lines are each ended by
    carriage return (rune 13) and newline, with or without an unfinished
    last line, gives the same mapping as the document with the same lines
    ended by newline alone, whatever the sanitizer; so does a document whose
    lines, the last one too, end in a carriage return and are separated by
    newlines. *)
Theorem carriage_returns_ignored (To_LowerCase : rune -> rune)
    (sanitize : gostring -> gostring) (lines : list gostring) (last : gostring) :
  Forall (fun line => 10 ∉ line) lines ->
  10 ∉ last ->
  parseMarkdown To_LowerCase sanitize
    (concat (map (fun line => line ++ [13; 10]) lines) ++ last)
  = parseMarkdown To_LowerCase sanitize
      (concat (map (fun line => line ++ [10]) lines) ++ last)
  /\ (lines ≠ [] ->
      parseMarkdown To_LowerCase sanitize
        (Join (map (fun line => line ++ [13]) lines) (go "\n"))
      = parseMarkdown To_LowerCase sanitize (Join lines (go "\n"))).
Proof.
  intros Hnl Hlast.
  assert (Hcr : Forall2 (fun line line' => TrimSpace line = TrimSpace line')
                  (map (fun line => line ++ [13]) lines) lines).
  { apply Forall2_fmap_l, Forall_Forall2_diag, Forall_forall.
    intros line _. apply TrimSpace_carriage_return. }
  assert (Hnl13 : Forall (fun line => 10 ∉ line) (map (fun line => line ++ [13]) lines)).
  { apply Forall_map. eapply Forall_impl; [exact Hnl|].
    intros line. apply carriage_return_absent_newline. }
  split.
  - replace (concat (map (fun line => line ++ [13; 10]) lines) ++ last)
      with (Join (map (fun line => line ++ [13]) lines ++ [last]) (go "\n")).
    2:{ rewrite Join_snoc, map_map. do 2 f_equal. apply map_ext.
        intros line. by rewrite <- app_assoc. }
    replace (concat (map (fun line => line ++ [10]) lines) ++ last)
      with (Join (lines ++ [last]) (go "\n")) by apply Join_snoc.
    apply parseMarkdown_trimmed_lines.
    + apply Forall2_app; [exact Hcr | by constructor].
    + by destruct (map (fun line => line ++ [13]) lines).
    + apply Forall_app. split; [exact Hnl13 | by constructor].
    + apply Forall_app. split; [exact Hnl | by constructor].
  - intros Hne. apply parseMarkdown_trimmed_lines; try done.
    by intros ?%fmap_nil_inv.
Qed.

Lemma carriage_returns_ignored_witness :
  parseMarkdown sampleLowerCase (inlineSanitize sampleLowerCase)
    (concat (map (fun line => line ++ [13; 10])
               [go "## Part"; go "### Field"; go "- item"]) ++ go "")
  = parseMarkdown sampleLowerCase (inlineSanitize sampleLowerCase)
      (concat (map (fun line => line ++ [10])
                 [go "## Part"; go "### Field"; go "- item"]) ++ go "")
  /\ ([go "## Part"; go "### Field"; go "- item"] ≠ [] ->
      parseMarkdown sampleLowerCase (inlineSanitize sampleLowerCase)
        (Join (map (fun line => line ++ [13])
                 [go "## Part"; go "### Field"; go "- item"]) (go "\n"))
      = parseMarkdown sampleLowerCase (inlineSanitize sampleLowerCase)
          (Join [go "## Part"; go "### Field"; go "- item"] (go "\n"))).
Proof.
  apply carriage_returns_ignored; [|apply not_elem_of_nil].
  apply (bool_decide_unpack _). by vm_compute.
Defined.
